(** * Verification of [src/lib/search-utils.ts]

    A shallow embedding of the three exported functions of the search
    utilities, [fuzzyMatch], [levenshteinDistance] and
    [calculateMatchScore], and the properties of them that the
    specification states. *)

From Stdlib Require Import QArith Lqa.
From stdpp Require Import base numbers list strings.

Open Scope nat_scope.

(** * The program *)

(** ** Strings

    An ECMAScript string is a finite sequence of 16-bit code units;
    [length], indexing, [includes], [split] and [trim] all work on code
    units. *)

Abbreviation code_unit := N.
Abbreviation jsstring := (list code_unit).

(** The code units of a string literal of the source (one per character,
    which is how an ASCII literal is stored). *)
Definition js (s : string) : jsstring :=
  map Ascii.N_of_ascii (String.list_ascii_of_string s).

(** [\s] of a regular expression, which is also what [trim] strips:
    WhiteSpace and LineTerminator of the language definition. *)
Definition isWhiteSpace (c : code_unit) : bool :=
  ((9 <=? c) && (c <=? 13) || (c =? 32) || (c =? 160) || (c =? 5760)
   || (8192 <=? c) && (c <=? 8202) || (c =? 8232) || (c =? 8233)
   || (c =? 8239) || (c =? 8287) || (c =? 12288) || (c =? 65279))%N.

(** [s.startsWith(p)]: used to spell out [includes]. *)
Fixpoint startsWith (s p : jsstring) {struct p} : bool :=
  match p, s with
  | [], _ => true
  | _ :: _, [] => false
  | x :: p', y :: s' => (x =? y)%N && startsWith s' p'
  end.

(** [text.includes(term)]: [term] occurs in [text] as a contiguous run
    of code units. *)
Fixpoint includes (text term : jsstring) : bool :=
  startsWith text term ||
  match text with
  | [] => false
  | _ :: text' => includes text' term
  end.

(** [s.trim()]. *)
Fixpoint trimStart (s : jsstring) : jsstring :=
  match s with
  | [] => []
  | c :: s' => if isWhiteSpace c then trimStart s' else s
  end.

Definition trimEnd (s : jsstring) : jsstring := rev (trimStart (rev s)).

Definition trim (s : jsstring) : jsstring := trimEnd (trimStart s).

(** [s.split(/\s+/)], read left to right; [prev] tells whether the code
    unit before was white space, so that a run of white space separates
    once. The empty string splits into one empty word, and white space
    at either end yields an empty word there. *)
Fixpoint splitFrom (prev : bool) (s : jsstring) : list jsstring :=
  match s with
  | [] => [[]]
  | c :: s' =>
      if isWhiteSpace c then
        if prev then splitFrom true s' else [] :: splitFrom true s'
      else
        match splitFrom false s' with
        | w :: ws => (c :: w) :: ws
        | [] => [[c]]
        end
  end.

Definition splitWhitespace (s : jsstring) : list jsstring := splitFrom false s.

(** Lower-casing of the letters A to Z, which is all [toLowerCase] does
    to a string of ASCII characters. *)
Definition asciiLower (c : code_unit) : code_unit :=
  if ((65 <=? c) && (c <=? 90))%N then (c + 32)%N else c.

Definition isAscii (c : code_unit) : bool := (c <? 128)%N.

(** [toLowerCase] restricted to the ASCII letters: the case mapping the
    examples are run with. *)
Definition asciiToLowerCase (s : jsstring) : jsstring := map asciiLower s.

(** [toLowerCase] on ASCII text and on U+0130, LATIN CAPITAL LETTER I
    WITH DOT ABOVE, whose lower case is the two code units U+0069
    U+0307; the other code units, which the examples do not use, are
    left as they are. *)
Definition dotAboveToLowerCase (s : jsstring) : jsstring :=
  flat_map (fun c => if (c =? 304)%N then [105; 775]%N else [asciiLower c]) s.

(** ** [levenshteinDistance]

    The table [dp] is an array of [m + 1] rows of [n + 1] numbers, first
    all zero, written cell by cell in the order of the three loops.
    Every read and write of the loops falls inside the table; outside
    it a read of the model gives 0 and a write changes nothing. *)

Abbreviation table := (list (list nat)).

(** [dp[i][j]] as an expression. *)
Definition cell (dp : table) (i j : nat) : nat :=
  default 0 (dp !! i ≫= (.!! j)).

(** [dp[i][j] = v]. *)
Definition setCell (dp : table) (i j v : nat) : table :=
  match dp !! i with
  | Some row => <[i := <[j := v]> row]> dp
  | None => dp
  end.

(** [Array(m + 1).fill(null).map(() => Array(n + 1).fill(0))]. *)
Definition newTable (m n : nat) : table := replicate (m + 1) (replicate (n + 1) 0).

(** [for (let i = 0; i <= m; i++) dp[i][0] = i]. *)
Definition fillFirstColumn (m : nat) (dp : table) : table :=
  foldl (fun dp i => setCell dp i 0 i) dp (seq 0 (m + 1)).

(** [for (let j = 0; j <= n; j++) dp[0][j] = j]. *)
Definition fillFirstRow (n : nat) (dp : table) : table :=
  foldl (fun dp j => setCell dp 0 j j) dp (seq 0 (n + 1)).

(** The body of the inner loop: [a[i - 1] === b[j - 1]] compares two
    code units (both indexes are in range there). *)
Definition fillCell (a b : jsstring) (i : nat) (dp : table) (j : nat) : table :=
  if decide (a !! (i - 1) = b !! (j - 1)) then
    setCell dp i j (cell dp (i - 1) (j - 1))
  else
    setCell dp i j
      (1 + Nat.min (cell dp (i - 1) j)
             (Nat.min (cell dp i (j - 1)) (cell dp (i - 1) (j - 1)))).

(** [for (let j = 1; j <= n; j++) ...] for one [i]. *)
Definition fillRow (a b : jsstring) (n : nat) (dp : table) (i : nat) : table :=
  foldl (fillCell a b i) dp (seq 1 n).

(** [for (let i = 1; i <= m; i++) ...]. *)
Definition fillRows (a b : jsstring) (m n : nat) (dp : table) : table :=
  foldl (fillRow a b n) dp (seq 1 m).

Definition levenshteinDistance (a b : jsstring) : nat :=
  let m := length a in
  let n := length b in
  let dp := newTable m n in
  let dp := fillFirstColumn m dp in
  let dp := fillFirstRow n dp in
  let dp := fillRows a b m n dp in
  cell dp m n.

(** The table as the three loops leave it; [levenshteinDistance] returns
    its last cell. *)
Definition levenshteinTable (a b : jsstring) : table :=
  fillRows a b (length a) (length b)
    (fillFirstRow (length b) (fillFirstColumn (length a) (newTable (length a) (length b)))).

(** The same loops with every index checked. [None] stands for an
    access outside the table or outside a string: in the source a read
    there gives [undefined] or throws, and a write throws or makes a
    row longer. *)
Definition readCell (dp : table) (i j : nat) : option nat :=
  row ← dp !! i; row !! j.

Definition writeCell (dp : table) (i j v : nat) : option table :=
  row ← dp !! i;
  if decide (j < length row) then Some (<[i := <[j := v]> row]> dp) else None.

Fixpoint forEach {S : Type} (body : S → nat → option S) (s : S) (indices : list nat)
  : option S :=
  match indices with
  | [] => Some s
  | k :: indices' => s' ← body s k; forEach body s' indices'
  end.

Definition checkedFirstColumn (m : nat) (dp : table) : option table :=
  forEach (fun dp i => writeCell dp i 0 i) dp (seq 0 (m + 1)).

Definition checkedFirstRow (n : nat) (dp : table) : option table :=
  forEach (fun dp j => writeCell dp 0 j j) dp (seq 0 (n + 1)).

Definition checkedCell (a b : jsstring) (i : nat) (dp : table) (j : nat) : option table :=
  x ← a !! (i - 1);
  y ← b !! (j - 1);
  if decide (x = y) then
    diagonal ← readCell dp (i - 1) (j - 1);
    writeCell dp i j diagonal
  else
    above ← readCell dp (i - 1) j;
    before ← readCell dp i (j - 1);
    diagonal ← readCell dp (i - 1) (j - 1);
    writeCell dp i j (1 + Nat.min above (Nat.min before diagonal)).

Definition checkedRow (a b : jsstring) (n : nat) (dp : table) (i : nat) : option table :=
  forEach (checkedCell a b i) dp (seq 1 n).

Definition checkedRows (a b : jsstring) (m n : nat) (dp : table) : option table :=
  forEach (checkedRow a b n) dp (seq 1 m).

Definition checkedTable (a b : jsstring) : option table :=
  let m := length a in
  let n := length b in
  dp ← checkedFirstColumn m (newTable m n);
  dp ← checkedFirstRow n dp;
  checkedRows a b m n dp.

Definition checkedDistance (a b : jsstring) : option nat :=
  dp ← checkedTable a b; readCell dp (length a) (length b).

(** ** [fuzzyMatch] and [calculateMatchScore] *)

(** A call either returns a value or throws; the one exception these
    functions can raise is a [TypeError]. *)
Inductive completion (A : Type) : Type :=
| Ok (v : A)
| TypeError.
Arguments Ok {A} v.
Arguments TypeError {A}.

Global Instance completion_bind : MBind completion := fun A B k c =>
  match c with
  | Ok v => k v
  | TypeError => TypeError
  end.

(** The object literal [abbreviations], with its own properties in the
    order they are written (the order of [Object.entries]). *)
Definition abbreviations : list (jsstring * list jsstring) :=
  [ (js "maths", [js "math"; js "mathematics"]);
    (js "math", [js "maths"; js "mathematics"]);
    (js "sci", [js "science"]);
    (js "eng", [js "english"]);
    (js "bio", [js "biology"]);
    (js "chem", [js "chemistry"]);
    (js "phys", [js "physics"]);
    (js "lit", [js "literature"]);
    (js "hist", [js "history"]);
    (js "geo", [js "geography"]);
    (js "s1", [js "senior 1"]);
    (js "s2", [js "senior 2"]);
    (js "s3", [js "senior 3"]);
    (js "s4", [js "senior 4"]);
    (js "s5", [js "senior 5"]);
    (js "s6", [js "senior 6"]) ].

(** The names an object literal inherits from [Object.prototype]: each
    is bound to a function, [__proto__] to the prototype object itself. *)
Definition objectPrototype : list jsstring :=
  [ js "constructor"; js "__proto__"; js "hasOwnProperty";
    js "isPrototypeOf"; js "propertyIsEnumerable"; js "toLocaleString";
    js "toString"; js "valueOf"; js "__defineGetter__";
    js "__defineSetter__"; js "__lookupGetter__"; js "__lookupSetter__" ].

(** What [abbreviations[term]] evaluates to. *)
Inductive property : Type :=
| Expansions (expansions : list jsstring)
| Inherited
| Undefined.

Fixpoint ownProperty (term : jsstring) (entries : list (jsstring * list jsstring))
  : option (list jsstring) :=
  match entries with
  | [] => None
  | (abbr, expansions) :: entries' =>
      if decide (abbr = term) then Some expansions else ownProperty term entries'
  end.

(** The property read [abbreviations[term]]: an own property if there is
    one, else what the prototype chain has under that name, else
    [undefined]. *)
Definition getProperty (term : jsstring) : property :=
  match ownProperty term abbreviations with
  | Some expansions => Expansions expansions
  | None =>
      if decide (term ∈ objectPrototype) then Inherited else Undefined
  end.

(** [if (abbreviations[term]) { for (const expansion of
    abbreviations[term]) ... }]: an inherited property is truthy and is
    not iterable, so that the [for ... of] over it throws. *)
Definition forwardAbbreviation (term text : jsstring) : completion bool :=
  match getProperty term with
  | Expansions expansions =>
      Ok (existsb (fun expansion => includes text expansion) expansions)
  | Inherited => TypeError
  | Undefined => Ok false
  end.

(** [for (const [abbr, expansions] of Object.entries(abbreviations))]. *)
Definition reverseAbbreviation (term text : jsstring) : bool :=
  existsb
    (fun '(abbr, expansions) =>
       bool_decide (term ∈ expansions) && includes text abbr)
    abbreviations.

(** The test of the innermost loop on one pair of words. *)
Definition similarWord (termWord word : jsstring) : bool :=
  (Z.abs (Z.of_nat (length termWord) - Z.of_nat (length word)) <=? 1)%Z
  && (4 <=? length word)
  && (levenshteinDistance termWord word <=? 1).

(** The two nested loops over [termWords] and [words]. *)
Definition fuzzyWords (term text : jsstring) : bool :=
  let words := splitWhitespace text in
  let termWords := splitWhitespace term in
  existsb
    (fun termWord => (4 <=? length termWord) && existsb (similarWord termWord) words)
    termWords.

Section SearchUtils.

(** [String.prototype.toLowerCase] follows the Unicode case mapping of
    the host; the functions are given over it. *)
Variable toLowerCase : jsstring → jsstring.

Definition fuzzyMatch (searchTerm targetText : jsstring) : completion bool :=
  let term := trim (toLowerCase searchTerm) in
  let text := toLowerCase targetText in
  if includes text term then Ok true
  else
    forward ← forwardAbbreviation term text ;
    if (forward : bool) then Ok true
    else if reverseAbbreviation term text then Ok true
    else Ok (fuzzyWords term text).

(** The five additions to [score], in the order of the source. The
    numbers of the source are binary64; all the constants are integers
    and the one quotient is taken exactly here, in [Q]. *)
Definition titleScore (queryLower title : jsstring) : Q :=
  if decide (toLowerCase title = queryLower) then 100
  else if includes (toLowerCase title) queryLower then 90
  else 0.

Definition titleWordScore (queryLower title : jsstring) : Q :=
  let titleWords := splitWhitespace (toLowerCase title) in
  let queryWords := splitWhitespace queryLower in
  let titleWordMatches :=
    length (List.filter
              (fun w => existsb (fun qw => includes w qw || includes qw w) queryWords)
              titleWords) in
  if 0 <? titleWordMatches then
    70 * (inject_Z (Z.of_nat titleWordMatches) / inject_Z (Z.of_nat (length titleWords)))
  else 0.

Definition subjectScore (queryLower subject : jsstring) : Q :=
  if decide (toLowerCase subject = queryLower) then 80
  else if includes (toLowerCase subject) queryLower then 75
  else 0.

Definition descriptionScore (queryLower description : jsstring) : Q :=
  if includes (toLowerCase description) queryLower then 40 else 0.

(** [queryLower.length >= 4 && fuzzyMatch(query, `${title} ${subject}`)];
    [fuzzyMatch] is called only when the length test passes. *)
Definition fuzzyBonus (query queryLower title subject : jsstring) : completion Q :=
  if 4 <=? length queryLower then
    matched ← fuzzyMatch query (title ++ js " " ++ subject) ;
    Ok (if (matched : bool) then 20 else 0)%Q
  else Ok 0%Q.

Definition calculateMatchScore (query title description subject : jsstring)
  : completion Q :=
  let queryLower := toLowerCase query in
  let score := 0%Q in
  let score := (score + titleScore queryLower title)%Q in
  let score := (score + titleWordScore queryLower title)%Q in
  let score := (score + subjectScore queryLower subject)%Q in
  let score := (score + descriptionScore queryLower description)%Q in
  bonus ← fuzzyBonus query queryLower title subject ;
  Ok (score + bonus)%Q.

End SearchUtils.

(** * What the program is compared with *)

(** ** Edit scripts

    [edit a b] is one insertion, deletion or substitution of a single
    element, [edits n a b] a chain of [n] of them leading from [a] to
    [b]. [aligned] is the same cost read off a left-to-right alignment
    of the two lists, and [lev] the recurrence of the table on the
    lists themselves. *)

Section EditScripts.
Context {A : Type} `{EqDecision A}.

Inductive edit : list A → list A → Prop :=
| edit_insert l1 x l2 : edit (l1 ++ l2) (l1 ++ x :: l2)
| edit_delete l1 x l2 : edit (l1 ++ x :: l2) (l1 ++ l2)
| edit_substitute l1 x y l2 : x ≠ y → edit (l1 ++ x :: l2) (l1 ++ y :: l2).

Inductive edits : nat → list A → list A → Prop :=
| edits_done a : edits 0 a a
| edits_step n a b c : edit a b → edits n b c → edits (S n) a c.

Inductive aligned : nat → list A → list A → Prop :=
| aligned_nil : aligned 0 [] []
| aligned_keep x a b n : aligned n a b → aligned n (x :: a) (x :: b)
| aligned_substitute x y a b n :
    x ≠ y → aligned n a b → aligned (S n) (x :: a) (y :: b)
| aligned_delete x a b n : aligned n a b → aligned (S n) (x :: a) b
| aligned_insert y a b n : aligned n a b → aligned (S n) a (y :: b).

Fixpoint lev (a : list A) : list A → nat :=
  match a with
  | [] => fun b => length b
  | x :: a' =>
      fix lev_a (b : list A) : nat :=
        match b with
        | [] => S (length a')
        | y :: b' =>
            if decide (x = y) then lev a' b'
            else S (Nat.min (lev a' b) (Nat.min (lev_a b') (lev a' b')))
        end
  end.

End EditScripts.

(** ** The table while it is filled *)

(** The table has [m + 1] rows of [n + 1] cells. *)
Definition shape (m n : nat) (dp : table) : Prop :=
  length dp = m + 1 ∧ ∀ i row, dp !! i = Some row → length row = n + 1.

(** What cell [(i, j)] is to hold: the recurrence on the first [i] code
    units of [a] and the first [j] of [b], last unit first. *)
Definition prefixDistance (a b : jsstring) (i j : nat) : nat :=
  lev (rev (take i a)) (rev (take j b)).

(** What the table holds while the nested loops run: the cells of the
    first row and column, of the rows before [i], and of row [i] before
    column [j]. *)
Definition filledUpTo (a b : jsstring) (i j : nat) (dp : table) : Prop :=
  shape (length a) (length b) dp ∧
  ∀ i' j', i' ≤ length a → j' ≤ length b →
    i' = 0 ∨ j' = 0 ∨ i' < i ∨ (i' = i ∧ j' < j) →
    cell dp i' j' = prefixDistance a b i' j'.

(** * Properties *)

(** ** The source's functions on examples *)

Example splitWhitespace_empty : splitWhitespace [] = [[]].
Proof. reflexivity. Qed.

Example splitWhitespace_runs :
  splitWhitespace (js " senior  1 ") = [[]; js "senior"; js "1"; []].
Proof. reflexivity. Qed.

Example trim_example : trim (js "  senior 1 ") = js "senior 1".
Proof. reflexivity. Qed.

Example includes_example :
  includes (js "mathematics") (js "math") = true ∧
  includes (js "mathematics") (js "maths") = false.
Proof. split; reflexivity. Qed.

Example getProperty_examples :
  getProperty (js "bio") = Expansions [js "biology"] ∧
  getProperty (js "constructor") = Inherited ∧
  getProperty (js "algebra") = Undefined.
Proof. repeat split; vm_compute; reflexivity. Qed.

(** ** Edit scripts and the recurrence *)

Section EditScriptFacts.
Context {A : Type} `{EqDecision A}.
Implicit Types a b c : list A.

Lemma lev_nil_r a : lev a [] = length a.
Proof. by destruct a. Qed.

Lemma lev_cons x y a b :
  lev (x :: a) (y :: b) =
    if decide (x = y) then lev a b
    else S (Nat.min (lev a (y :: b)) (Nat.min (lev (x :: a) b) (lev a b))).
Proof. reflexivity. Qed.

Lemma aligned_refl a : aligned 0 a a.
Proof. induction a; by constructor. Qed.

Lemma aligned_all_deleted a : aligned (length a) a [].
Proof. induction a; simpl; by constructor. Qed.

Lemma aligned_all_inserted b : aligned (length b) [] b.
Proof. induction b; simpl; by constructor. Qed.

(** The recurrence is the cost of some alignment. *)
Lemma aligned_lev a b : aligned (lev a b) a b.
Proof.
  revert b. induction a as [|x a IHa]; intros b.
  - apply aligned_all_inserted.
  - induction b as [|y b IHb].
    + rewrite lev_nil_r. apply aligned_all_deleted.
    + rewrite lev_cons. case_decide as Hxy.
      * subst y. by constructor.
      * destruct (Nat.min_spec (lev a (y :: b)) (Nat.min (lev (x :: a) b) (lev a b)))
          as [[_ ->]|[_ ->]]; [by constructor|].
        destruct (Nat.min_spec (lev (x :: a) b) (lev a b)) as [[_ ->]|[_ ->]];
          by constructor.
Qed.

Lemma aligned_lengths n a b :
  aligned n a b → length a ≤ n + length b ∧ length b ≤ n + length a.
Proof. induction 1; simpl; lia. Qed.

(** Dropping the first element of either side costs at most one more. *)
Lemma aligned_tail_r n a y b :
  aligned n a (y :: b) → ∃ n', n' ≤ S n ∧ aligned n' a b.
Proof.
  intros Hal. remember (y :: b) as yb eqn:Heq. revert y b Heq.
  induction Hal as [|x a b' n Hal IH|x y' a b' n Hne Hal IH|x a b' n Hal IH|y' a b' n Hal IH];
    intros y b Heq; simplify_eq.
  - exists (S n). split; [lia|]. by constructor.
  - exists (S n). split; [lia|]. by constructor.
  - destruct (IH _ _ eq_refl) as (n' & Hle & Hal').
    exists (S n'). split; [lia|]. by constructor.
  - exists n. split; [lia|]. done.
Qed.

Lemma aligned_tail_l n x a b :
  aligned n (x :: a) b → ∃ n', n' ≤ S n ∧ aligned n' a b.
Proof.
  intros Hal. remember (x :: a) as xa eqn:Heq. revert x a Heq.
  induction Hal as [|x' a' b n Hal IH|x' y a' b n Hne Hal IH|x' a' b n Hal IH|y a' b n Hal IH];
    intros x a Heq; simplify_eq.
  - exists (S n). split; [lia|]. by constructor.
  - exists (S n). split; [lia|]. by constructor.
  - exists n. split; [lia|]. done.
  - destruct (IH _ _ eq_refl) as (n' & Hle & Hal').
    exists (S n'). split; [lia|]. by constructor.
Qed.

(** No alignment is cheaper than the recurrence. *)
Lemma lev_le_aligned n a b : aligned n a b → lev a b ≤ n.
Proof.
  remember (length a + length b) as k eqn:Hk.
  revert n a b Hk. induction (lt_wf k) as [k _ IH]. intros n a b -> Hal.
  destruct a as [|x a].
  { apply aligned_lengths in Hal. simpl in *. lia. }
  destruct b as [|y b].
  { apply aligned_lengths in Hal. simpl in *. lia. }
  rewrite lev_cons.
  assert (∀ n' a' b', length a' + length b' < length (x :: a) + length (y :: b) →
            aligned n' a' b' → lev a' b' ≤ n') as IH'.
  { intros n' a' b' Hlt Hal'. by eapply IH. }
  case_decide as Hxy.
  - subst y.
    inversion Hal as [|? ? ? ? Hal'|? ? ? ? ? Hne Hal'|? ? ? ? Hal'|? ? ? ? Hal']; subst.
    + apply IH' in Hal'; [lia | simpl; lia].
    + apply IH' in Hal'; [lia | simpl; lia].
    + apply aligned_tail_r in Hal' as (n' & Hle & Hal').
      apply IH' in Hal'; [lia | simpl; lia].
    + apply aligned_tail_l in Hal' as (n' & Hle & Hal').
      apply IH' in Hal'; [lia | simpl; lia].
  - inversion Hal as [|? ? ? ? Hal'|? ? ? ? ? Hne Hal'|? ? ? ? Hal'|? ? ? ? Hal']; subst.
    + done.
    + apply IH' in Hal'; [lia | simpl; lia].
    + apply IH' in Hal'; [lia | simpl; lia].
    + apply IH' in Hal'; [lia | simpl; lia].
Qed.

(** Alignments compose, at no more than the sum of their costs. *)
Lemma aligned_trans n m a b c :
  aligned n a b → aligned m b c → ∃ k, k ≤ n + m ∧ aligned k a c.
Proof.
  intros Hab. revert m c.
  induction Hab as [|x a b n Hab IH|x y a b n Hxy Hab IH|x a b n Hab IH|y a b n Hab IH];
    intros m c Hbc.
  - exists m. split; [lia|done].
  - remember (x :: b) as xb eqn:Heq. revert Heq.
    induction Hbc
      as [|x' b' c m Hbc _|x' z b' c m Hne Hbc _|x' b' c m Hbc _|z b' c m Hbc IHbc];
      intros Heq; simplify_eq.
    + destruct (IH _ _ Hbc) as (k & Hle & Hac).
      exists k. split; [lia|]. by constructor.
    + destruct (IH _ _ Hbc) as (k & Hle & Hac).
      exists (S k). split; [lia|]. by constructor.
    + destruct (IH _ _ Hbc) as (k & Hle & Hac).
      exists (S k). split; [lia|]. by constructor.
    + destruct (IHbc eq_refl) as (k & Hle & Hac).
      exists (S k). split; [lia|]. by constructor.
  - remember (y :: b) as yb eqn:Heq. revert Heq.
    induction Hbc
      as [|x' b' c m Hbc _|x' z b' c m Hne Hbc _|x' b' c m Hbc _|z b' c m Hbc IHbc];
      intros Heq; simplify_eq.
    + destruct (IH _ _ Hbc) as (k & Hle & Hac).
      exists (S k). split; [lia|]. by constructor.
    + destruct (IH _ _ Hbc) as (k & Hle & Hac).
      destruct (decide (x = z)) as [->|Hxz].
      * exists k. split; [lia|]. by constructor.
      * exists (S k). split; [lia|]. by constructor.
    + destruct (IH _ _ Hbc) as (k & Hle & Hac).
      exists (S k). split; [lia|]. by constructor.
    + destruct (IHbc eq_refl) as (k & Hle & Hac).
      exists (S k). split; [lia|]. by constructor.
  - destruct (IH _ _ Hbc) as (k & Hle & Hac).
    exists (S k). split; [lia|]. by constructor.
  - remember (y :: b) as yb eqn:Heq. revert Heq.
    induction Hbc
      as [|x' b' c m Hbc _|x' z b' c m Hne Hbc _|x' b' c m Hbc _|z b' c m Hbc IHbc];
      intros Heq; simplify_eq.
    + destruct (IH _ _ Hbc) as (k & Hle & Hac).
      exists (S k). split; [lia|]. by constructor.
    + destruct (IH _ _ Hbc) as (k & Hle & Hac).
      exists (S k). split; [lia|]. by constructor.
    + destruct (IH _ _ Hbc) as (k & Hle & Hac).
      exists k. split; [lia|]. done.
    + destruct (IHbc eq_refl) as (k & Hle & Hac).
      exists (S k). split; [lia|]. by constructor.
Qed.

Lemma aligned_app_l n l a b : aligned n a b → aligned n (l ++ a) (l ++ b).
Proof. intros Hab. induction l; simpl; [done|by constructor]. Qed.

Lemma edit_aligned a b : edit a b → aligned 1 a b.
Proof.
  destruct 1; apply aligned_app_l; constructor; try done; apply aligned_refl.
Qed.

Lemma edits_aligned n a b : edits n a b → ∃ k, k ≤ n ∧ aligned k a b.
Proof.
  induction 1 as [a|n a b c Hab _ (k & Hle & Hbc)].
  - exists 0. split; [lia|apply aligned_refl].
  - destruct (aligned_trans _ _ _ _ _ (edit_aligned _ _ Hab) Hbc) as (k' & Hle' & Hac).
    exists k'. split; [lia|done].
Qed.

Lemma edit_cons x a b : edit a b → edit (x :: a) (x :: b).
Proof. destruct 1; rewrite !app_comm_cons; by constructor. Qed.

Lemma edits_cons n x a b : edits n a b → edits n (x :: a) (x :: b).
Proof.
  induction 1; [constructor|].
  eapply edits_step; [by apply edit_cons|done].
Qed.

Lemma aligned_edits n a b : aligned n a b → edits n a b.
Proof.
  induction 1 as [|x a b n _ IH|x y a b n Hxy _ IH|x a b n _ IH|y a b n _ IH].
  - constructor.
  - by apply edits_cons.
  - eapply edits_step; [by apply (edit_substitute [] x y a)|]. by apply edits_cons.
  - eapply edits_step; [apply (edit_delete [] x a)|]. done.
  - eapply edits_step; [apply (edit_insert [] y a)|]. by apply edits_cons.
Qed.

(** The recurrence is the length of a shortest chain of edits. *)
Lemma edits_lev a b : edits (lev a b) a b.
Proof. apply aligned_edits, aligned_lev. Qed.

Lemma lev_le_edits n a b : edits n a b → lev a b ≤ n.
Proof.
  intros (k & Hle & Hal)%edits_aligned. apply lev_le_aligned in Hal. lia.
Qed.

Lemma edits_trans n m a b c : edits n a b → edits m b c → edits (n + m) a c.
Proof.
  induction 1; simpl; [done|]. intros Hbc. eapply edits_step; eauto.
Qed.

Lemma edit_sym a b : edit a b → edit b a.
Proof. destruct 1; by constructor. Qed.

Lemma edits_sym n a b : edits n a b → edits n b a.
Proof.
  induction 1 as [|n a b c Hab _ IH]; [constructor|].
  replace (S n) with (n + 1) by lia.
  eapply edits_trans; [done|].
  eapply edits_step; [by apply edit_sym|constructor].
Qed.

Lemma edit_rev a b : edit a b → edit (rev a) (rev b).
Proof.
  destruct 1; rewrite !rev_app_distr; simpl; rewrite <- !app_assoc; simpl;
    by constructor.
Qed.

Lemma edits_rev n a b : edits n a b → edits n (rev a) (rev b).
Proof.
  induction 1; [constructor|].
  eapply edits_step; [by apply edit_rev|done].
Qed.

Lemma lev_sym a b : lev a b = lev b a.
Proof.
  apply Nat.le_antisymm; apply lev_le_edits, edits_sym, edits_lev.
Qed.

Lemma lev_triangle a b c : lev a c ≤ lev a b + lev b c.
Proof.
  apply lev_le_edits. eapply edits_trans; apply edits_lev.
Qed.

Lemma lev_rev a b : lev (rev a) (rev b) = lev a b.
Proof.
  apply Nat.le_antisymm; apply lev_le_edits.
  - apply edits_rev, edits_lev.
  - rewrite <- (rev_involutive a), <- (rev_involutive b) at 2.
    apply edits_rev, edits_lev.
Qed.

End EditScriptFacts.

(** ** The table of [levenshteinDistance] *)

Lemma shape_newTable m n : shape m n (newTable m n).
Proof.
  split; [apply length_replicate|].
  intros i row [-> _]%lookup_replicate. apply length_replicate.
Qed.

Lemma shape_setCell m n dp i j v : shape m n dp → shape m n (setCell dp i j v).
Proof.
  intros [Hlen Hrows]. unfold setCell.
  destruct (dp !! i) as [row|] eqn:Hi; [|done].
  split; [by rewrite length_insert|].
  intros i' row' Hi'. destruct (decide (i = i')) as [->|Hne].
  - rewrite list_lookup_insert_eq in Hi' by (by eapply lookup_lt_Some).
    simplify_eq. rewrite length_insert. eauto.
  - rewrite list_lookup_insert_ne in Hi' by done. eauto.
Qed.

Lemma cell_setCell_eq m n dp i j v :
  shape m n dp → i ≤ m → j ≤ n → cell (setCell dp i j v) i j = v.
Proof.
  intros [Hlen Hrows] Hi Hj. unfold setCell, cell.
  destruct (lookup_lt_is_Some_2 dp i) as [row Hrow]; [lia|].
  rewrite Hrow. rewrite list_lookup_insert_eq by lia. simpl.
  rewrite list_lookup_insert_eq; [done|]. rewrite (Hrows _ _ Hrow). lia.
Qed.

Lemma cell_setCell_ne dp i j v i' j' :
  i ≠ i' ∨ j ≠ j' → cell (setCell dp i j v) i' j' = cell dp i' j'.
Proof.
  intros Hne. unfold setCell, cell.
  destruct (dp !! i) as [row|] eqn:Hrow; [|done].
  destruct (decide (i = i')) as [<-|Hi].
  - rewrite list_lookup_insert_eq by (by eapply lookup_lt_Some).
    rewrite Hrow. simpl. rewrite list_lookup_insert_ne; [done|]. by destruct Hne.
  - by rewrite list_lookup_insert_ne.
Qed.

(** A loop [for (let k = start; k < start + len; k++)] keeps what its
    body keeps. *)
Lemma foldl_seq_invariant {S : Type} (P : nat → S → Prop) (f : S → nat → S) len :
  ∀ start s,
    P start s →
    (∀ k s', start ≤ k < start + len → P k s' → P (k + 1) (f s' k)) →
    P (start + len) (foldl f s (seq start len)).
Proof.
  induction len as [|len IH]; intros start s Hs Hstep; simpl.
  - by rewrite Nat.add_0_r.
  - replace (start + Datatypes.S len) with (Datatypes.S start + len) by lia.
    apply IH.
    + replace (Datatypes.S start) with (start + 1) by lia. apply Hstep; [lia|done].
    + intros k s' Hk. apply Hstep. lia.
Qed.

Lemma prefixDistance_0_r a b i : i ≤ length a → prefixDistance a b i 0 = i.
Proof.
  intros Hi. unfold prefixDistance. rewrite take_0. simpl.
  rewrite lev_nil_r, length_rev, length_take. lia.
Qed.

Lemma prefixDistance_0_l a b j : j ≤ length b → prefixDistance a b 0 j = j.
Proof.
  intros Hj. unfold prefixDistance. rewrite take_0. simpl.
  rewrite length_rev, length_take. lia.
Qed.

Lemma prefixDistance_S a b i j x y :
  a !! i = Some x → b !! j = Some y →
  prefixDistance a b (S i) (S j) =
    if decide (x = y) then prefixDistance a b i j
    else S (Nat.min (prefixDistance a b i (S j))
              (Nat.min (prefixDistance a b (S i) j) (prefixDistance a b i j))).
Proof.
  intros Hx Hy. unfold prefixDistance.
  rewrite (take_S_r a i x Hx), (take_S_r b j y Hy), !rev_unit.
  apply lev_cons.
Qed.

Lemma prefixDistance_all a b :
  prefixDistance a b (length a) (length b) = lev a b.
Proof. unfold prefixDistance. rewrite !firstn_all. apply lev_rev. Qed.

Lemma fillFirstColumn_spec m n dp :
  shape m n dp →
  shape m n (fillFirstColumn m dp) ∧
  ∀ i, i ≤ m → cell (fillFirstColumn m dp) i 0 = i.
Proof.
  intros Hshape.
  pose (P := fun (k : nat) (dp : table) =>
               shape m n dp ∧ ∀ i, i < k → i ≤ m → cell dp i 0 = i).
  assert (P (0 + (m + 1)) (fillFirstColumn m dp)) as [Hs Hc].
  { apply (foldl_seq_invariant P).
    - split; [done|]. intros i Hi. lia.
    - intros k dp' Hk [Hs Hc]. split; [by apply shape_setCell|].
      intros i Hi Him. destruct (decide (i = k)) as [->|Hne].
      + eapply cell_setCell_eq; eauto. lia.
      + rewrite cell_setCell_ne by auto. apply Hc; lia. }
  split; [done|]. intros i Hi. apply Hc; lia.
Qed.

Lemma fillFirstRow_spec m n dp :
  shape m n dp → (∀ i, i ≤ m → cell dp i 0 = i) →
  shape m n (fillFirstRow n dp) ∧
  (∀ i, i ≤ m → cell (fillFirstRow n dp) i 0 = i) ∧
  (∀ j, j ≤ n → cell (fillFirstRow n dp) 0 j = j).
Proof.
  intros Hshape Hcol.
  pose (P := fun (k : nat) (dp : table) =>
               shape m n dp ∧ (∀ i, i ≤ m → cell dp i 0 = i) ∧
               ∀ j, j < k → j ≤ n → cell dp 0 j = j).
  assert (P (0 + (n + 1)) (fillFirstRow n dp)) as (Hs & Hc & Hr).
  { apply (foldl_seq_invariant P).
    - split; [done|]. split; [done|]. intros j Hj. lia.
    - intros k dp' Hk (Hs & Hc & Hr). split; [by apply shape_setCell|]. split.
      + intros i Hi. destruct (decide (i = 0 ∧ k = 0)) as [[-> ->]|Hne].
        * eapply cell_setCell_eq; eauto. lia.
        * rewrite cell_setCell_ne by lia. by apply Hc.
      + intros j Hj Hjn. destruct (decide (j = k)) as [->|Hne].
        * eapply cell_setCell_eq; eauto. lia.
        * rewrite cell_setCell_ne by auto. apply Hr; lia. }
  split; [done|]. split; [done|]. intros j Hj. apply Hr; lia.
Qed.

Lemma fillCell_spec a b i j dp :
  1 ≤ i ≤ length a → 1 ≤ j ≤ length b →
  filledUpTo a b i j dp → filledUpTo a b i (j + 1) (fillCell a b i dp j).
Proof.
  intros Hi Hj [Hshape Hcells].
  destruct (lookup_lt_is_Some_2 a (i - 1)) as [x Hx]; [lia|].
  destruct (lookup_lt_is_Some_2 b (j - 1)) as [y Hy]; [lia|].
  assert (prefixDistance a b i j =
          if decide (x = y) then cell dp (i - 1) (j - 1)
          else S (Nat.min (cell dp (i - 1) j)
                    (Nat.min (cell dp i (j - 1)) (cell dp (i - 1) (j - 1))))) as Hnew.
  { rewrite !Hcells by lia.
    destruct i as [|i0]; [lia|]. destruct j as [|j0]; [lia|].
    rewrite !Nat.sub_succ, !Nat.sub_0_r in *.
    by apply prefixDistance_S. }
  assert (∀ v, v = prefixDistance a b i j → filledUpTo a b i (j + 1) (setCell dp i j v))
    as Hset.
  { intros v ->. split; [by apply shape_setCell|].
    intros i' j' Hi' Hj' Hdone.
    destruct (decide (i = i' ∧ j = j')) as [[<- <-]|Hne].
    - eapply cell_setCell_eq; eauto; lia.
    - rewrite cell_setCell_ne by lia. apply Hcells; lia. }
  unfold fillCell. rewrite Hx, Hy.
  destruct (decide (x = y)) as [->|Hxy].
  - rewrite decide_True by done. by apply Hset.
  - rewrite decide_False by congruence. by apply Hset.
Qed.

Lemma fillRow_spec a b i dp :
  1 ≤ i ≤ length a →
  filledUpTo a b i 1 dp → filledUpTo a b (i + 1) 1 (fillRow a b (length b) dp i).
Proof.
  intros Hi Hdp.
  assert (filledUpTo a b i (1 + length b) (fillRow a b (length b) dp i)) as [Hs Hc].
  { apply (foldl_seq_invariant (filledUpTo a b i)); [done|].
    intros j dp' Hj Hdp'. apply fillCell_spec; [done|lia|done]. }
  split; [done|]. intros i' j' Hi' Hj' Hdone. apply Hc; lia.
Qed.

Lemma fillRows_spec a b dp :
  filledUpTo a b 1 1 dp →
  filledUpTo a b (1 + length a) 1 (fillRows a b (length a) (length b) dp).
Proof.
  intros Hdp.
  apply (foldl_seq_invariant (fun i => filledUpTo a b i 1)); [done|].
  intros i dp' Hi Hdp'. apply fillRow_spec; [lia|done].
Qed.

(** The table computes the recurrence on the two strings. *)
Lemma levenshteinDistance_lev a b : levenshteinDistance a b = lev a b.
Proof.
  unfold levenshteinDistance. cbv zeta.
  destruct (fillFirstColumn_spec (length a) (length b) _
              (shape_newTable (length a) (length b))) as [Hs1 Hc1].
  destruct (fillFirstRow_spec _ _ _ Hs1 Hc1) as (Hs2 & Hc2 & Hr2).
  destruct (fillRows_spec a b (fillFirstRow (length b)
              (fillFirstColumn (length a) (newTable (length a) (length b)))))
    as [_ Hcells].
  { split; [done|]. intros i' j' Hi' Hj' Hdone.
    destruct (decide (j' = 0)) as [->|Hj0].
    - rewrite prefixDistance_0_r by done. by apply Hc2.
    - assert (i' = 0) as -> by lia.
      rewrite prefixDistance_0_l by done. by apply Hr2. }
  rewrite Hcells by lia. apply prefixDistance_all.
Qed.

(** ** Strings *)

Lemma startsWith_spec (s p : jsstring) :
  startsWith s p = true ↔ ∃ l, s = p ++ l.
Proof.
  revert s. induction p as [|x p IH]; intros s; simpl.
  - split; [by exists s|done].
  - destruct s as [|y s].
    + split; [done|]. by intros [l ?].
    + rewrite andb_true_iff, N.eqb_eq, IH. split.
      * intros [-> [l ->]]. by exists l.
      * intros [l Heq]. simplify_eq. eauto.
Qed.

Lemma includes_spec (text term : jsstring) :
  includes text term = true ↔ ∃ l1 l2, text = l1 ++ term ++ l2.
Proof.
  induction text as [|c text IH]; simpl.
  - rewrite orb_false_r, startsWith_spec. split.
    + intros [l ->]. by exists [], l.
    + intros (l1 & l2 & Heq). symmetry in Heq.
      apply app_eq_nil in Heq as [-> Heq]. eauto.
  - rewrite orb_true_iff, startsWith_spec, IH. split.
    + intros [[l ->]|(l1 & l2 & ->)].
      * by exists [], l.
      * by exists (c :: l1), l2.
    + intros (l1 & l2 & Heq). destruct l1 as [|c' l1]; simpl in Heq.
      * left. eauto.
      * right. simplify_eq. eauto.
Qed.

Lemma includes_nil_r (text : jsstring) : includes text [] = true.
Proof. apply includes_spec. by exists [], text. Qed.

Lemma includes_nil_l (term : jsstring) : includes [] term = bool_decide (term = []).
Proof. destruct term; by simpl. Qed.

Lemma trimStart_suffix (s : jsstring) : ∃ l, s = l ++ trimStart s.
Proof.
  induction s as [|c s [l IH]]; simpl; [by exists []|].
  destruct (isWhiteSpace c); [|by exists []].
  exists (c :: l). simpl. by rewrite <- IH.
Qed.

Lemma trimEnd_prefix (s : jsstring) : ∃ l, s = trimEnd s ++ l.
Proof.
  unfold trimEnd. destruct (trimStart_suffix (rev s)) as [l Hl].
  exists (rev l). rewrite <- rev_app_distr, <- Hl. by rewrite rev_involutive.
Qed.

(** A string includes what [trim] leaves of it. *)
Lemma includes_trim (s : jsstring) : includes s (trim s) = true.
Proof.
  apply includes_spec. unfold trim.
  destruct (trimStart_suffix s) as [l1 Hl1].
  destruct (trimEnd_prefix (trimStart s)) as [l2 Hl2].
  exists l1, l2. by rewrite <- Hl2.
Qed.

Lemma trimStart_whitespace (s : jsstring) :
  forallb isWhiteSpace s = true → trimStart s = [].
Proof.
  induction s as [|c s IH]; simpl; [done|].
  intros [-> Hs]%andb_true_iff. auto.
Qed.

Lemma trim_whitespace (s : jsstring) : forallb isWhiteSpace s = true → trim s = [].
Proof. intros Hs. unfold trim. by rewrite trimStart_whitespace. Qed.

Lemma splitFrom_nonempty prev (s : jsstring) : splitFrom prev s ≠ [].
Proof.
  revert prev. induction s as [|c s IH]; intros prev; simpl; [done|].
  destruct (isWhiteSpace c).
  - destruct prev; [apply IH|done].
  - by destruct (splitFrom false s).
Qed.

Lemma filter_length_le {A : Type} (f : A → bool) (l : list A) :
  length (List.filter f l) ≤ length l.
Proof. induction l as [|x l IH]; simpl; [done|]. destruct (f x); simpl; lia. Qed.

Lemma trimEnd_whitespace (s : jsstring) : forallb isWhiteSpace s = true → trimEnd s = [].
Proof.
  intros Hs. unfold trimEnd.
  rewrite trimStart_whitespace; [done|]. rewrite forallb_forall in *.
  intros c Hc. apply Hs. by apply in_rev.
Qed.

(** [trim] only drops words: the words of a trimmed string are among
    the words of the string, apart from the one empty word of a string
    that is all white space. *)
Lemma trimStart_app (l k : jsstring) :
  trimStart (l ++ k) =
    if forallb isWhiteSpace l then trimStart k else trimStart l ++ k.
Proof.
  induction l as [|c l IH]; simpl; [done|].
  destruct (isWhiteSpace c); simpl; [done|done].
Qed.

Lemma forallb_rev {A : Type} (f : A → bool) (l : list A) :
  forallb f (rev l) = forallb f l.
Proof.
  induction l as [|x l IH]; simpl; [done|].
  rewrite forallb_app, IH. simpl. rewrite andb_true_r. apply andb_comm.
Qed.

Lemma trimEnd_cons (c : code_unit) (s : jsstring) :
  trimEnd (c :: s) =
    if forallb isWhiteSpace (c :: s) then [] else c :: trimEnd s.
Proof.
  unfold trimEnd. simpl. rewrite trimStart_app, forallb_rev.
  destruct (forallb isWhiteSpace s) eqn:Hs; simpl.
  - rewrite andb_true_r.
    rewrite (trimStart_whitespace (rev s)) by (by rewrite forallb_rev).
    by destruct (isWhiteSpace c).
  - rewrite andb_false_r, rev_app_distr. done.
Qed.

Lemma splitFrom_trimStart prev (s : jsstring) :
  splitFrom false (trimStart s) `suffix_of` splitFrom prev s.
Proof.
  revert prev. induction s as [|c s IH]; intros prev.
  - done.
  - simpl. destruct (isWhiteSpace c) eqn:Hc.
    + destruct prev; [apply IH|]. apply suffix_cons_r, IH.
    + simpl. by rewrite Hc.
Qed.

Lemma splitFrom_trimEnd prev (s : jsstring) :
  splitFrom prev (trimEnd s) `prefix_of` splitFrom prev s.
Proof.
  revert prev. induction s as [|c s IH]; intros prev.
  - done.
  - rewrite trimEnd_cons.
    destruct (forallb isWhiteSpace (c :: s)) eqn:Hall.
    + simpl in Hall. apply andb_true_iff in Hall as [Hc Hs].
      simpl. rewrite Hc. destruct prev.
      * specialize (IH true). rewrite trimEnd_whitespace in IH by done. done.
      * by apply prefix_cons, prefix_nil.
    + simpl. destruct (isWhiteSpace c).
      * destruct prev; [apply IH|]. apply prefix_cons, IH.
      * destruct (IH false) as [tail Htail].
        destruct (splitFrom false (trimEnd s)) as [|w ws] eqn:Hsplit.
        { by apply splitFrom_nonempty in Hsplit. }
        rewrite Htail. simpl. by exists tail.
Qed.

Lemma splitWhitespace_trim (P : jsstring → Prop) (s : jsstring) :
  Forall P (splitWhitespace s) → Forall P (splitWhitespace (trim s)).
Proof.
  unfold splitWhitespace, trim. intros Hs.
  destruct (splitFrom_trimStart false s) as [front Hfront].
  destruct (splitFrom_trimEnd false (trimStart s)) as [back Hback].
  rewrite Hfront, Hback in Hs.
  apply Forall_app in Hs as [_ Hs]. by apply Forall_app in Hs as [Hs _].
Qed.

Lemma isWhiteSpace_asciiLower (c : code_unit) :
  isWhiteSpace (asciiLower c) = isWhiteSpace c.
Proof.
  unfold asciiLower.
  destruct (65 <=? c)%N eqn:H1, (c <=? 90)%N eqn:H2; simpl; try done.
  apply N.leb_le in H1, H2. unfold isWhiteSpace.
  repeat match goal with
         | |- context [(?x <=? ?y)%N] => destruct (N.leb_spec x y); try lia
         | |- context [(?x =? ?y)%N] => destruct (N.eqb_spec x y); try lia
         end; done.
Qed.

Lemma splitFrom_asciiLower prev (s : jsstring) :
  splitFrom prev (map asciiLower s) = map (map asciiLower) (splitFrom prev s).
Proof.
  revert prev. induction s as [|c s IH]; intros prev; simpl; [done|].
  rewrite isWhiteSpace_asciiLower, !IH.
  destruct (isWhiteSpace c); [by destruct prev|].
  by destruct (splitFrom false s).
Qed.

(** On ASCII text the words of the normalised term are as long as the
    words of the search term. *)
Lemma splitWhitespace_normalised_ascii (k : nat) (s : jsstring) :
  Forall (fun w => length w < k) (splitWhitespace s) →
  Forall (fun w => length w < k) (splitWhitespace (trim (map asciiLower s))).
Proof.
  intros Hs. apply splitWhitespace_trim. unfold splitWhitespace.
  rewrite splitFrom_asciiLower. apply Forall_fmap.
  eapply Forall_impl; [exact Hs|]. intros w Hw. simpl. by rewrite length_map.
Qed.

(** ** The abbreviation table *)

Lemma getProperty_Inherited term :
  getProperty term = Inherited →
  ∃ w, splitWhitespace term = [w] ∧ 4 ≤ length w.
Proof.
  unfold getProperty. destruct (ownProperty term abbreviations); [done|].
  case_decide as Hin; [intros _|done].
  unfold objectPrototype in Hin.
  repeat (apply elem_of_cons in Hin as [->|Hin];
          [eexists; split; [vm_compute; reflexivity|simpl; lia]|]).
  by apply elem_of_nil in Hin.
Qed.

(** ** [fuzzyMatch] and [calculateMatchScore] *)

Section SearchUtilsFacts.
Variable toLowerCase : jsstring → jsstring.

(** What is used of [toLowerCase]: on ASCII text it lowers the letters A
    to Z and nothing else, and white space has no lower case. *)
Hypothesis toLowerCase_ascii :
  ∀ s, forallb isAscii s = true → toLowerCase s = map asciiLower s.
Hypothesis toLowerCase_whitespace :
  ∀ s, forallb isWhiteSpace s = true → toLowerCase s = s.

Ltac evaluate :=
  cbv delta [calculateMatchScore fuzzyBonus fuzzyMatch titleScore titleWordScore
             subjectScore descriptionScore] beta;
  rewrite ?toLowerCase_ascii by reflexivity;
  vm_compute; reflexivity.

Lemma fuzzyWords_short term text :
  Forall (fun w => length w < 4) (splitWhitespace term) →
  fuzzyWords term text = false.
Proof.
  unfold fuzzyWords. cbv zeta.
  induction 1 as [|w ws Hw _ IH]; cbn [existsb]; [done|].
  rewrite IH, orb_false_r. apply andb_false_iff. left.
  apply Nat.leb_gt. lia.
Qed.

Lemma forwardAbbreviation_short term text :
  Forall (fun w => length w < 4) (splitWhitespace term) →
  ∃ forward, forwardAbbreviation term text = Ok forward.
Proof.
  intros Hshort. unfold forwardAbbreviation.
  destruct (getProperty term) eqn:Hget; eauto.
  apply getProperty_Inherited in Hget as (w & Hw & Hlen).
  rewrite Hw in Hshort. apply Forall_cons in Hshort as [Hshort _]. lia.
Qed.

Lemma titleScore_bounds queryLower title :
  (0 <= titleScore toLowerCase queryLower title <= 100)%Q.
Proof. unfold titleScore. repeat case_match; by compute. Qed.

Lemma subjectScore_bounds queryLower subject :
  (0 <= subjectScore toLowerCase queryLower subject <= 80)%Q.
Proof. unfold subjectScore. repeat case_match; by compute. Qed.

Lemma descriptionScore_bounds queryLower description :
  (0 <= descriptionScore toLowerCase queryLower description <= 40)%Q.
Proof. unfold descriptionScore. repeat case_match; by compute. Qed.

Lemma overlap_bounds (k n : nat) :
  0 < k ≤ n →
  (0 <= 70 * (inject_Z (Z.of_nat k) / inject_Z (Z.of_nat n)) <= 70)%Q.
Proof.
  intros Hk. destruct n as [|n]; [lia|].
  unfold Qle, Qdiv, Qmult, Qinv, inject_Z. simpl. lia.
Qed.

Lemma titleWordScore_bounds queryLower title :
  (0 <= titleWordScore toLowerCase queryLower title <= 70)%Q.
Proof.
  unfold titleWordScore. cbv zeta. case_match eqn:Hpos; [|by compute].
  apply overlap_bounds. apply Nat.ltb_lt in Hpos.
  split; [done|apply filter_length_le].
Qed.

Lemma fuzzyBonus_bounds query queryLower title subject bonus :
  fuzzyBonus toLowerCase query queryLower title subject = Ok bonus →
  (0 <= bonus <= 20)%Q.
Proof.
  unfold fuzzyBonus. case_match; [|intros [= <-]; by compute].
  destruct (fuzzyMatch _ _ _) as [[]|]; simpl; [| |done]; intros [= <-]; by compute.
Qed.

Lemma calculateMatchScore_bounds query title description subject score :
  calculateMatchScore toLowerCase query title description subject = Ok score →
  (0 <= score <= 310)%Q.
Proof.
  unfold calculateMatchScore. cbv zeta.
  destruct (fuzzyBonus _ _ _ _ _) as [bonus|] eqn:Hbonus; simpl; [|done].
  intros [= <-]. apply fuzzyBonus_bounds in Hbonus.
  pose proof (titleScore_bounds (toLowerCase query) title).
  pose proof (titleWordScore_bounds (toLowerCase query) title).
  pose proof (subjectScore_bounds (toLowerCase query) subject).
  pose proof (descriptionScore_bounds (toLowerCase query) description).
  split; lra.
Qed.

Lemma toLowerCase_empty : toLowerCase [] = [].
Proof. by apply toLowerCase_ascii. Qed.

(** Every query word includes the one, empty, word of an empty title. *)
Lemma titleWordScore_empty_title queryLower :
  titleWordScore toLowerCase queryLower [] = 70%Q.
Proof.
  unfold titleWordScore. cbv zeta. rewrite toLowerCase_empty.
  change (splitWhitespace []) with [[] : jsstring]. cbn [List.filter].
  destruct (splitWhitespace queryLower) as [|qw qws] eqn:Hsplit.
  { by apply splitFrom_nonempty in Hsplit. }
  cbn [existsb]. rewrite includes_nil_r, orb_true_r. reflexivity.
Qed.

(** With all three fields empty the title, the subject and the
    description add something to the score only for the empty query. *)
Lemma fieldScores_empty_record queryLower :
  queryLower ≠ [] →
  titleScore toLowerCase queryLower [] = 0%Q ∧
  subjectScore toLowerCase queryLower [] = 0%Q ∧
  descriptionScore toLowerCase queryLower [] = 0%Q.
Proof.
  intros Hne. unfold titleScore, subjectScore, descriptionScore.
  assert ([] ≠ queryLower) as Hne' by done.
  rewrite toLowerCase_empty, includes_nil_l.
  rewrite bool_decide_eq_false_2 by done.
  destruct (decide ([] = queryLower)); done.
Qed.

(** C1: the specification gives [calculateMatchScore], on a query that
    matches nothing and three empty fields, the score 0, the empty
    title adding nothing for word overlap. The function does not do
    that: the empty title splits into one empty word, which every query
    word includes, so the overlap rule adds its 70 points whatever the
    query is. No query scores less than 70 there, a query that is not
    empty and earns no fuzzy bonus scores 70, and so does "zzz". *)
Theorem calculateMatchScore_empty_record :
  (∀ query, titleWordScore toLowerCase (toLowerCase query) [] = 70%Q) ∧
  (∀ query score,
     calculateMatchScore toLowerCase query [] [] [] = Ok score →
     (70 <= score)%Q) ∧
  (∀ query,
     toLowerCase query ≠ [] →
     fuzzyBonus toLowerCase query (toLowerCase query) [] [] = Ok 0%Q →
     calculateMatchScore toLowerCase query [] [] [] = Ok 70%Q) ∧
  calculateMatchScore toLowerCase (js "zzz") [] [] [] = Ok 70%Q.
Proof.
  split; [intros query; apply titleWordScore_empty_title|].
  split; [|split; [|evaluate]].
  - intros query score. unfold calculateMatchScore. cbv zeta.
    destruct (fuzzyBonus _ _ _ _ _) as [bonus|] eqn:Hbonus; simpl; [|done].
    intros [= <-]. apply fuzzyBonus_bounds in Hbonus.
    rewrite titleWordScore_empty_title.
    pose proof (titleScore_bounds (toLowerCase query) []).
    pose proof (subjectScore_bounds (toLowerCase query) []).
    pose proof (descriptionScore_bounds (toLowerCase query) []).
    lra.
  - intros query Hne Hbonus. unfold calculateMatchScore. cbv zeta.
    destruct (fieldScores_empty_record _ Hne) as (-> & -> & ->).
    rewrite Hbonus, titleWordScore_empty_title. reflexivity.
Qed.

(** C3: [calculateMatchScore("maths", "Mathematics 101", "intro course",
    "Maths")] is 100: nothing from the title, neither as a whole nor
    word by word, 80 from the subject, which equals the query, nothing
    from the description, and the fuzzy bonus of 20, the query having 5
    characters and the exact substring rule of [fuzzyMatch] succeeding
    on "mathematics 101 maths". *)
Theorem calculateMatchScore_maths_example :
  let query := js "maths" in
  let title := js "Mathematics 101" in
  let description := js "intro course" in
  let subject := js "Maths" in
  titleScore toLowerCase (toLowerCase query) title = 0%Q ∧
  titleWordScore toLowerCase (toLowerCase query) title = 0%Q ∧
  subjectScore toLowerCase (toLowerCase query) subject = 80%Q ∧
  descriptionScore toLowerCase (toLowerCase query) description = 0%Q ∧
  length (toLowerCase query) = 5 ∧
  includes (toLowerCase (js "Mathematics 101 Maths")) (trim (toLowerCase query)) = true ∧
  fuzzyMatch toLowerCase query (js "Mathematics 101 Maths") = Ok true ∧
  fuzzyBonus toLowerCase query (toLowerCase query) title subject = Ok 20%Q ∧
  calculateMatchScore toLowerCase query title description subject = Ok 100%Q.
Proof. cbv zeta. repeat split; evaluate. Qed.

(** C4: the specification has [calculateMatchScore] return, for every
    query and record, a number from 0 to 310. The function does not
    always return: for the query "constructor" the property read
    [abbreviations[term]] finds the function inherited from
    [Object.prototype], which is truthy and cannot be iterated, and the
    call throws a [TypeError]. Whenever the call returns, its score is
    from 0 to 310. *)
Theorem calculateMatchScore_range :
  calculateMatchScore toLowerCase (js "constructor") (js "Algebra") (js "Intro")
    (js "Maths") = TypeError ∧
  ∀ query title description subject score,
    calculateMatchScore toLowerCase query title description subject = Ok score →
    (0 <= score <= 310)%Q.
Proof. split; [evaluate|apply calculateMatchScore_bounds]. Qed.

(** C5: "math" and "maths" stand for each other: [fuzzyMatch("maths",
    "I love math")] and [fuzzyMatch("math", "I love maths")] are both
    true, each key of the pair listing the other among its expansions,
    and on both calls the forward rule and the reverse rule hold. The
    first call is not a substring match and returns by the forward
    rule; in the second "math" is already a substring of the text. *)
Theorem fuzzyMatch_math_maths :
  ownProperty (js "maths") abbreviations = Some [js "math"; js "mathematics"] ∧
  ownProperty (js "math") abbreviations = Some [js "maths"; js "mathematics"] ∧
  fuzzyMatch toLowerCase (js "maths") (js "I love math") = Ok true ∧
  fuzzyMatch toLowerCase (js "math") (js "I love maths") = Ok true ∧
  includes (toLowerCase (js "I love math")) (trim (toLowerCase (js "maths"))) = false ∧
  forwardAbbreviation (trim (toLowerCase (js "maths"))) (toLowerCase (js "I love math"))
    = Ok true ∧
  reverseAbbreviation (trim (toLowerCase (js "maths"))) (toLowerCase (js "I love math"))
    = true ∧
  forwardAbbreviation (trim (toLowerCase (js "math"))) (toLowerCase (js "I love maths"))
    = Ok true ∧
  reverseAbbreviation (trim (toLowerCase (js "math"))) (toLowerCase (js "I love maths"))
    = true.
Proof. repeat split; evaluate. Qed.

(** C6: when every word of the normalised search term, lower-cased and
    trimmed, has fewer than 4 characters, the edit-distance rule finds
    nothing, and [fuzzyMatch] returns what the substring rule and the
    two abbreviation rules give. A search term of ASCII characters
    whose own words have fewer than 4 characters is such a term; outside
    ASCII lower-casing can make a word longer, and the words as typed
    do not decide it. [fuzzyMatch("zz", "xyz")] is false, and
    [fuzzyMatch("ab", "abc")] is true, by substring containment and by
    no other rule. *)
Theorem fuzzyMatch_short_term_words :
  (∀ searchTerm targetText,
     let term := trim (toLowerCase searchTerm) in
     let text := toLowerCase targetText in
     Forall (fun termWord => length termWord < 4) (splitWhitespace term) →
     fuzzyWords term text = false ∧
     ∃ forward,
       forwardAbbreviation term text = Ok forward ∧
       fuzzyMatch toLowerCase searchTerm targetText =
         Ok (includes text term || forward || reverseAbbreviation term text)) ∧
  (∀ searchTerm,
     forallb isAscii searchTerm = true →
     Forall (fun word => length word < 4) (splitWhitespace searchTerm) →
     Forall (fun termWord => length termWord < 4)
       (splitWhitespace (trim (toLowerCase searchTerm)))) ∧
  fuzzyMatch toLowerCase (js "zz") (js "xyz") = Ok false ∧
  fuzzyMatch toLowerCase (js "ab") (js "abc") = Ok true ∧
  includes (toLowerCase (js "abc")) (trim (toLowerCase (js "ab"))) = true ∧
  forwardAbbreviation (trim (toLowerCase (js "ab"))) (toLowerCase (js "abc")) = Ok false ∧
  reverseAbbreviation (trim (toLowerCase (js "ab"))) (toLowerCase (js "abc")) = false.
Proof.
  split; [|split; [|repeat split; evaluate]].
  - intros searchTerm targetText term text Hshort.
    split; [by apply fuzzyWords_short|].
    destruct (forwardAbbreviation_short term text Hshort) as [forward Hforward].
    exists forward. split; [done|].
    unfold fuzzyMatch. cbv zeta. fold term text.
    rewrite Hforward, (fuzzyWords_short term text Hshort). simpl.
    destruct (includes text term), forward, (reverseAbbreviation term text); done.
  - intros searchTerm Hascii Hshort. rewrite toLowerCase_ascii by done.
    by apply splitWhitespace_normalised_ascii.
Qed.

(** C9: [fuzzyMatch(s, s)] is true for every non-empty [s], by the
    exact substring rule: the text includes what trimming leaves of
    it. *)
Theorem fuzzyMatch_reflexive (s : jsstring) :
  s ≠ [] →
  includes (toLowerCase s) (trim (toLowerCase s)) = true ∧
  fuzzyMatch toLowerCase s s = Ok true.
Proof.
  intros _. pose proof (includes_trim (toLowerCase s)) as Hinc.
  split; [done|]. unfold fuzzyMatch. cbv zeta. by rewrite Hinc.
Qed.

(** C10: a search term that is empty or all white space matches every
    text: trimmed and lower-cased it is the empty string, which every
    string includes. *)
Theorem fuzzyMatch_blank_term (s t : jsstring) :
  s = [] ∨ forallb isWhiteSpace s = true →
  trim (toLowerCase s) = [] ∧
  includes (toLowerCase t) (trim (toLowerCase s)) = true ∧
  fuzzyMatch toLowerCase s t = Ok true.
Proof.
  intros Hs. assert (forallb isWhiteSpace s = true) as Hws.
  { by destruct Hs as [->|?]. }
  assert (trim (toLowerCase s) = []) as Htrim.
  { rewrite toLowerCase_whitespace by done. by apply trim_whitespace. }
  split; [done|]. unfold fuzzyMatch. cbv zeta.
  rewrite Htrim, includes_nil_r. done.
Qed.

End SearchUtilsFacts.

(** ** [levenshteinDistance] *)

Lemma levenshteinDistance_same (a : jsstring) : levenshteinDistance a a = 0.
Proof.
  rewrite levenshteinDistance_lev.
  pose proof (lev_le_aligned 0 a a (aligned_refl a)). lia.
Qed.

Lemma levenshteinDistance_empty (s : jsstring) : levenshteinDistance [] s = length s.
Proof. by rewrite levenshteinDistance_lev. Qed.

(** C2: [levenshteinDistance(a, b)] is the least number of insertions,
    deletions and substitutions of one character that lead from [a] to
    [b]: there is a chain of that many edits, and none is shorter. From
    "kitten" to "sitting" it is 3. *)
Theorem levenshteinDistance_minimal :
  (∀ a b : jsstring,
     edits (levenshteinDistance a b) a b ∧
     ∀ n, edits n a b → levenshteinDistance a b ≤ n) ∧
  levenshteinDistance (js "kitten") (js "sitting") = 3.
Proof.
  split; [|vm_compute; reflexivity].
  intros a b. rewrite levenshteinDistance_lev.
  split; [apply edits_lev|intros n; apply lev_le_edits].
Qed.

(** C7: [levenshteinDistance(a, b)] equals [levenshteinDistance(b, a)]. *)
Theorem levenshteinDistance_symmetric (a b : jsstring) :
  levenshteinDistance a b = levenshteinDistance b a.
Proof. rewrite !levenshteinDistance_lev. apply lev_sym. Qed.

(** C8: [levenshteinDistance(a, c)] is at most [levenshteinDistance(a,
    b) + levenshteinDistance(b, c)]. *)
Theorem levenshteinDistance_triangle (a b c : jsstring) :
  levenshteinDistance a c ≤ levenshteinDistance a b + levenshteinDistance b c.
Proof. rewrite !levenshteinDistance_lev. apply lev_triangle. Qed.


(** ** The statements at concrete inputs

    The case mapping is [asciiToLowerCase], which lowers the ASCII
    letters and leaves every other code unit as it is. *)

Lemma asciiToLowerCase_ascii (s : jsstring) :
  forallb isAscii s = true → asciiToLowerCase s = map asciiLower s.
Proof. reflexivity. Defined.

Lemma asciiToLowerCase_whitespace (s : jsstring) :
  forallb isWhiteSpace s = true → asciiToLowerCase s = s.
Proof.
  unfold asciiToLowerCase. induction s as [|c s IH]; simpl; [reflexivity|].
  intros [Hc Hs]%andb_true_iff. rewrite (IH Hs).
  f_equal. unfold asciiLower, isWhiteSpace in *.
  destruct (65 <=? c)%N eqn:H1, (c <=? 90)%N eqn:H2; simpl; try reflexivity.
  exfalso. apply N.leb_le in H1, H2.
  rewrite !orb_true_iff, !andb_true_iff, !N.eqb_eq, !N.leb_le in Hc. lia.
Defined.

Lemma calculateMatchScore_empty_record_witness :
  (∀ s, forallb isAscii s = true → asciiToLowerCase s = map asciiLower s) ∧
  asciiToLowerCase (js "zzz") ≠ [] ∧
  fuzzyBonus asciiToLowerCase (js "zzz") (asciiToLowerCase (js "zzz")) [] [] = Ok 0%Q ∧
  calculateMatchScore asciiToLowerCase (js "zzz") [] [] [] = Ok 70%Q ∧
  (70 <= 70)%Q.
Proof.
  split; [exact asciiToLowerCase_ascii|].
  assert (asciiToLowerCase (js "zzz") ≠ []) as Hne by discriminate.
  assert (fuzzyBonus asciiToLowerCase (js "zzz") (asciiToLowerCase (js "zzz")) [] []
          = Ok 0%Q) as Hbonus by reflexivity.
  split; [exact Hne|]. split; [exact Hbonus|].
  destruct (calculateMatchScore_empty_record asciiToLowerCase asciiToLowerCase_ascii)
    as (_ & Hfloor & Hplain & _).
  pose proof (Hplain (js "zzz") Hne Hbonus) as Hscore.
  split; [exact Hscore|]. exact (Hfloor (js "zzz") 70%Q Hscore).
Defined.

Lemma calculateMatchScore_maths_example_witness :
  (∀ s, forallb isAscii s = true → asciiToLowerCase s = map asciiLower s) ∧
  calculateMatchScore asciiToLowerCase (js "maths") (js "Mathematics 101")
    (js "intro course") (js "Maths") = Ok 100%Q.
Proof.
  split; [exact asciiToLowerCase_ascii|].
  apply (calculateMatchScore_maths_example asciiToLowerCase asciiToLowerCase_ascii).
Defined.

Lemma calculateMatchScore_range_witness :
  (∀ s, forallb isAscii s = true → asciiToLowerCase s = map asciiLower s) ∧
  calculateMatchScore asciiToLowerCase (js "constructor") (js "Algebra") (js "Intro")
    (js "Maths") = TypeError ∧
  (calculateMatchScore asciiToLowerCase (js "a b") (js "a c d") [] []
     = Ok (70 # 3)%Q ∧
   (0 <= 70 # 3 <= 310)%Q).
Proof.
  split; [exact asciiToLowerCase_ascii|].
  destruct (calculateMatchScore_range asciiToLowerCase asciiToLowerCase_ascii)
    as [Hthrow Hrange].
  split; [exact Hthrow|]. split; [reflexivity|].
  apply (Hrange (js "a b") (js "a c d") [] []). reflexivity.
Defined.

Lemma fuzzyMatch_math_maths_witness :
  (∀ s, forallb isAscii s = true → asciiToLowerCase s = map asciiLower s) ∧
  fuzzyMatch asciiToLowerCase (js "maths") (js "I love math") = Ok true ∧
  fuzzyMatch asciiToLowerCase (js "math") (js "I love maths") = Ok true.
Proof.
  split; [exact asciiToLowerCase_ascii|].
  split; apply (fuzzyMatch_math_maths asciiToLowerCase asciiToLowerCase_ascii).
Defined.

Lemma fuzzyMatch_short_term_words_witness :
  (∀ s, forallb isAscii s = true → asciiToLowerCase s = map asciiLower s) ∧
  forallb isAscii (js "S1 zz") = true ∧
  Forall (fun word : jsstring => length word < 4) (splitWhitespace (js "S1 zz")) ∧
  Forall (fun termWord : jsstring => length termWord < 4)
    (splitWhitespace (trim (asciiToLowerCase (js "S1 zz")))) ∧
  fuzzyWords (trim (asciiToLowerCase (js "S1 zz"))) (asciiToLowerCase (js "Senior 1 maths"))
    = false ∧
  fuzzyMatch asciiToLowerCase (js "zz") (js "xyz") = Ok false ∧
  fuzzyMatch asciiToLowerCase (js "ab") (js "abc") = Ok true.
Proof.
  split; [exact asciiToLowerCase_ascii|].
  assert (forallb isAscii (js "S1 zz") = true) as Hascii by reflexivity.
  assert (Forall (fun word : jsstring => length word < 4) (splitWhitespace (js "S1 zz")))
    as Hwords.
  { repeat constructor. }
  split; [exact Hascii|]. split; [exact Hwords|].
  destruct (fuzzyMatch_short_term_words asciiToLowerCase asciiToLowerCase_ascii)
    as (Hgeneral & Hraw & Hzz & Hab & _).
  pose proof (Hraw (js "S1 zz") Hascii Hwords) as Hshort.
  split; [exact Hshort|].
  split; [|split; [exact Hzz|exact Hab]].
  apply (Hgeneral (js "S1 zz") (js "Senior 1 maths") Hshort).
Defined.

Lemma dotAboveToLowerCase_ascii (s : jsstring) :
  forallb isAscii s = true → dotAboveToLowerCase s = map asciiLower s.
Proof.
  unfold dotAboveToLowerCase. induction s as [|c s IH]; simpl; [reflexivity|].
  intros [Hc Hs]%andb_true_iff. rewrite (IH Hs).
  unfold isAscii in Hc. apply N.ltb_lt in Hc.
  destruct (N.eqb_spec c 304); [lia|reflexivity].
Qed.

Lemma dotAboveToLowerCase_whitespace (s : jsstring) :
  forallb isWhiteSpace s = true → dotAboveToLowerCase s = s.
Proof.
  unfold dotAboveToLowerCase. induction s as [|c s IH]; simpl; [reflexivity|].
  intros [Hc Hs]%andb_true_iff. rewrite (IH Hs).
  destruct (N.eqb_spec c 304) as [->|_]; [by vm_compute in Hc|].
  simpl. f_equal. unfold asciiLower, isWhiteSpace in *.
  destruct (65 <=? c)%N eqn:H1, (c <=? 90)%N eqn:H2; simpl; try reflexivity.
  exfalso. apply N.leb_le in H1, H2.
  rewrite !orb_true_iff, !andb_true_iff, !N.eqb_eq, !N.leb_le in Hc. lia.
Qed.

(** C6, as the specification words it, fails: the search term "ab"
    followed by U+0130 is one word of 3 characters, its lower case has
    4, and on a text whose one word differs from it in the last code
    unit [fuzzyMatch] is true by the edit-distance rule alone, the
    substring rule and both abbreviation rules finding nothing. The
    case mapping is one that lowers ASCII letters and leaves white
    space as it is. *)
Lemma fuzzyMatch_short_term_words_counterexample :
  (∀ s, forallb isAscii s = true → dotAboveToLowerCase s = map asciiLower s) ∧
  (∀ s, forallb isWhiteSpace s = true → dotAboveToLowerCase s = s) ∧
  Forall (fun word : jsstring => length word < 4) (splitWhitespace [97; 98; 304]%N) ∧
  splitWhitespace (trim (dotAboveToLowerCase [97; 98; 304]%N)) = [[97; 98; 105; 775]%N] ∧
  includes (dotAboveToLowerCase [97; 98; 105; 776]%N)
    (trim (dotAboveToLowerCase [97; 98; 304]%N)) = false ∧
  forwardAbbreviation (trim (dotAboveToLowerCase [97; 98; 304]%N))
    (dotAboveToLowerCase [97; 98; 105; 776]%N) = Ok false ∧
  reverseAbbreviation (trim (dotAboveToLowerCase [97; 98; 304]%N))
    (dotAboveToLowerCase [97; 98; 105; 776]%N) = false ∧
  fuzzyWords (trim (dotAboveToLowerCase [97; 98; 304]%N))
    (dotAboveToLowerCase [97; 98; 105; 776]%N) = true ∧
  fuzzyMatch dotAboveToLowerCase [97; 98; 304]%N [97; 98; 105; 776]%N = Ok true.
Proof.
  split; [exact dotAboveToLowerCase_ascii|].
  split; [exact dotAboveToLowerCase_whitespace|].
  split; [repeat constructor|].
  repeat split; vm_compute; reflexivity.
Qed.

Lemma fuzzyMatch_reflexive_witness :
  js "Chemistry " ≠ [] ∧
  fuzzyMatch asciiToLowerCase (js "Chemistry ") (js "Chemistry ") = Ok true.
Proof.
  assert (js "Chemistry " ≠ []) as Hne by discriminate.
  split; [exact Hne|].
  apply (fuzzyMatch_reflexive asciiToLowerCase (js "Chemistry ") Hne).
Defined.

Lemma fuzzyMatch_blank_term_witness :
  (∀ s, forallb isWhiteSpace s = true → asciiToLowerCase s = s) ∧
  (js "  " = [] ∨ forallb isWhiteSpace (js "  ") = true) ∧
  fuzzyMatch asciiToLowerCase (js "  ") (js "Physics") = Ok true.
Proof.
  split; [exact asciiToLowerCase_whitespace|].
  assert (js "  " = [] ∨ forallb isWhiteSpace (js "  ") = true) as Hblank.
  { right. reflexivity. }
  split; [exact Hblank|].
  apply (fuzzyMatch_blank_term asciiToLowerCase asciiToLowerCase_whitespace
           (js "  ") (js "Physics") Hblank).
Defined.

Lemma levenshteinDistance_minimal_witness :
  edits 3 (js "kitten") (js "sitting") ∧
  levenshteinDistance (js "kitten") (js "sitting") ≤ 3.
Proof.
  assert (edits 3 (js "kitten") (js "sitting")) as Hchain.
  { eapply edits_step.
    { exact (edit_substitute [] 107%N 115%N (js "itten") ltac:(discriminate)). }
    eapply edits_step.
    { exact (edit_substitute (js "sitt") 101%N 105%N (js "n") ltac:(discriminate)). }
    eapply edits_step.
    { exact (edit_insert (js "sittin") 103%N []). }
    apply edits_done. }
  split; [exact Hchain|].
  destruct levenshteinDistance_minimal as [Hminimal _].
  apply (Hminimal (js "kitten") (js "sitting")). exact Hchain.
Defined.

(** * Further properties *)

(** ** Edit scripts *)

Section EditScriptBounds.
Context {A : Type} `{EqDecision A}.
Implicit Types a b p : list A.

Lemma aligned_zero n a b : aligned n a b → n = 0 → a = b.
Proof. induction 1; intros Hn; try lia; [done|]. f_equal. auto. Qed.

Lemma lev_zero a b : lev a b = 0 ↔ a = b.
Proof.
  split.
  - intros Hlev. by apply (aligned_zero (lev a b)); [apply aligned_lev|].
  - intros ->. pose proof (lev_le_aligned 0 b b (aligned_refl b)). lia.
Qed.

Lemma aligned_longest a b :
  ∃ k, k ≤ Nat.max (length a) (length b) ∧ aligned k a b.
Proof.
  revert b. induction a as [|x a IH]; intros b.
  - exists (length b). split; [simpl; lia|apply aligned_all_inserted].
  - destruct b as [|y b].
    + exists (length (x :: a)). split; [simpl; lia|apply aligned_all_deleted].
    + destruct (IH b) as (k & Hle & Hal). destruct (decide (x = y)) as [->|Hxy].
      * exists k. split; [simpl; lia|]. by constructor.
      * exists (S k). split; [simpl; lia|]. by constructor.
Qed.

Lemma lev_length_bounds a b :
  length a ≤ lev a b + length b ∧ length b ≤ lev a b + length a ∧
  lev a b ≤ Nat.max (length a) (length b).
Proof.
  destruct (aligned_lengths _ _ _ (aligned_lev a b)) as [Hab Hba].
  destruct (aligned_longest a b) as (k & Hle & Hal%lev_le_aligned). lia.
Qed.

Lemma lev_le_one a b : lev a b ≤ 1 ↔ a = b ∨ edit a b.
Proof.
  split.
  - intros Hle. destruct (lev a b) as [|[|n]] eqn:Hlev; [| |lia].
    + left. by apply lev_zero.
    + right. pose proof (edits_lev a b) as Hedits. rewrite Hlev in Hedits.
      inversion Hedits as [|? ? b' ? Hedit Hrest]; subst.
      by inversion Hrest; subst.
  - intros [->|Hedit].
    + pose proof (proj2 (lev_zero b b) eq_refl). lia.
    + apply lev_le_edits. eapply edits_step; [done|constructor].
Qed.

Lemma lev_app_l p a b : lev (p ++ a) (p ++ b) = lev a b.
Proof.
  induction p as [|x p IH]; simpl app; [done|].
  rewrite lev_cons. by rewrite decide_True.
Qed.

Lemma lev_app_r p a b : lev (a ++ p) (b ++ p) = lev a b.
Proof.
  rewrite <- (lev_rev (a ++ p)), !rev_app_distr, lev_app_l. apply lev_rev.
Qed.

End EditScriptBounds.

(** ** [levenshteinDistance] *)

(** X1: the distance of two strings is 0 exactly when they are the same
    string. *)
Theorem levenshteinDistance_zero (a b : jsstring) :
  levenshteinDistance a b = 0 ↔ a = b.
Proof. rewrite levenshteinDistance_lev. apply lev_zero. Qed.

(** X2: the distance is at least the difference of the two lengths and
    at most the greater of them; from or to the empty string it is the
    length of the other string. *)
Theorem levenshteinDistance_length_bounds (a b : jsstring) :
  length a - length b ≤ levenshteinDistance a b ∧
  length b - length a ≤ levenshteinDistance a b ∧
  levenshteinDistance a b ≤ Nat.max (length a) (length b) ∧
  levenshteinDistance [] b = length b ∧
  levenshteinDistance a [] = length a.
Proof.
  rewrite !levenshteinDistance_lev, lev_nil_r.
  pose proof (lev_length_bounds a b). simpl. repeat split; lia.
Qed.

(** X3: the distance is at most 1, which is what the word rule of
    [fuzzyMatch] asks for, exactly when the strings are equal or one
    insertion, deletion or substitution of a character apart. *)
Theorem levenshteinDistance_le_one (a b : jsstring) :
  levenshteinDistance a b ≤ 1 ↔ a = b ∨ edit a b.
Proof. rewrite levenshteinDistance_lev. apply lev_le_one. Qed.

(** X4: a common prefix and a common suffix do not count. *)
Theorem levenshteinDistance_common_affixes (p a b q : jsstring) :
  levenshteinDistance (p ++ a ++ q) (p ++ b ++ q) = levenshteinDistance a b.
Proof. rewrite !levenshteinDistance_lev, lev_app_l. apply lev_app_r. Qed.

Lemma readCell_inside m n (dp : table) i j :
  shape m n dp → i ≤ m → j ≤ n → readCell dp i j = Some (cell dp i j).
Proof.
  intros [Hlen Hrows] Hi Hj. unfold readCell, cell.
  destruct (lookup_lt_is_Some_2 dp i) as [row Hrow]; [lia|].
  rewrite Hrow. simpl.
  destruct (lookup_lt_is_Some_2 row j) as [v Hv]; [rewrite (Hrows _ _ Hrow); lia|].
  by rewrite Hv.
Qed.

Lemma writeCell_inside m n (dp : table) i j v :
  shape m n dp → i ≤ m → j ≤ n → writeCell dp i j v = Some (setCell dp i j v).
Proof.
  intros [Hlen Hrows] Hi Hj. unfold writeCell, setCell.
  destruct (lookup_lt_is_Some_2 dp i) as [row Hrow]; [lia|].
  rewrite Hrow. simpl. rewrite decide_True; [done|].
  rewrite (Hrows _ _ Hrow). lia.
Qed.

(** A checked loop whose body stays in range runs as the plain loop. *)
Lemma forEach_seq {S : Type} (P : S → Prop) (body : S → nat → option S)
    (step : S → nat → S) len :
  ∀ start s,
    P s →
    (∀ k s', start ≤ k < start + len → P s' →
             body s' k = Some (step s' k) ∧ P (step s' k)) →
    forEach body s (seq start len) = Some (foldl step s (seq start len)) ∧
    P (foldl step s (seq start len)).
Proof.
  induction len as [|len IH]; intros start s Hs Hstep; simpl; [done|].
  destruct (Hstep start s) as [-> Hs']; [lia|done|]. simpl.
  apply IH; [done|]. intros k s' Hk. apply Hstep. lia.
Qed.

Lemma checkedCell_inside (a b : jsstring) i j (dp : table) :
  shape (length a) (length b) dp → 1 ≤ i ≤ length a → 1 ≤ j ≤ length b →
  checkedCell a b i dp j = Some (fillCell a b i dp j).
Proof.
  intros Hshape Hi Hj. unfold checkedCell, fillCell.
  destruct (lookup_lt_is_Some_2 a (i - 1)) as [x Hx]; [lia|].
  destruct (lookup_lt_is_Some_2 b (j - 1)) as [y Hy]; [lia|].
  rewrite Hx, Hy. simpl.
  rewrite !(readCell_inside (length a) (length b) dp) by (exact Hshape || lia). simpl.
  destruct (decide (x = y)) as [->|Hxy].
  - rewrite decide_True by done.
    apply (writeCell_inside (length a) (length b)); [done|lia|lia].
  - rewrite decide_False by congruence.
    apply (writeCell_inside (length a) (length b)); [done|lia|lia].
Qed.

Lemma shape_fillCell (a b : jsstring) m n i j (dp : table) :
  shape m n dp → shape m n (fillCell a b i dp j).
Proof. intros Hshape. unfold fillCell. case_decide; by apply shape_setCell. Qed.

Lemma checkedTable_inside (a b : jsstring) :
  checkedTable a b = Some (levenshteinTable a b) ∧
  shape (length a) (length b) (levenshteinTable a b).
Proof.
  unfold checkedTable, levenshteinTable. cbv zeta.
  unfold checkedFirstColumn, checkedFirstRow, checkedRows.
  unfold fillRows, fillFirstRow, fillFirstColumn.
  set (m := length a). set (n := length b).
  destruct (forEach_seq (shape m n) (fun dp i => writeCell dp i 0 i)
              (fun dp i => setCell dp i 0 i) (m + 1) 0 (newTable m n))
    as [-> Hshape1]; [apply shape_newTable| |].
  { intros k dp Hk Hdp. split; [|by apply shape_setCell].
    apply (writeCell_inside m n); [done|lia|lia]. }
  cbn [mbind option_bind].
  destruct (forEach_seq (shape m n) (fun dp j => writeCell dp 0 j j)
              (fun dp j => setCell dp 0 j j) (n + 1) 0
              (foldl (fun dp i => setCell dp i 0 i) (newTable m n) (seq 0 (m + 1))))
    as [-> Hshape2]; [done| |].
  { intros k dp Hk Hdp. split; [|by apply shape_setCell].
    apply (writeCell_inside m n); [done|lia|lia]. }
  cbn [mbind option_bind].
  apply (forEach_seq (shape m n) (checkedRow a b n) (fillRow a b n)); [done|].
  intros i dp Hi Hdp.
  apply (forEach_seq (shape m n) (checkedCell a b i) (fillCell a b i)); [done|].
  intros j dp' Hj Hdp'. split; [|by apply shape_fillCell].
  apply checkedCell_inside; [done|lia|lia].
Qed.

(** X5: no access of the loops falls outside the table or outside the
    two strings: run with every index checked, the loops end without a
    fault, with the same table and the same result. When they end,
    cell [(i, j)] is inside the table and holds the distance between the
    first [i] code units of [a] and the first [j] of [b]. *)
Theorem levenshteinTable_cells (a b : jsstring) :
  checkedTable a b = Some (levenshteinTable a b) ∧
  checkedDistance a b = Some (levenshteinDistance a b) ∧
  ∀ i j, i ≤ length a → j ≤ length b →
    readCell (levenshteinTable a b) i j
      = Some (levenshteinDistance (take i a) (take j b)).
Proof.
  destruct (checkedTable_inside a b) as [Hchecked Hshape].
  destruct (fillFirstColumn_spec (length a) (length b) _
              (shape_newTable (length a) (length b))) as [Hs1 Hc1].
  destruct (fillFirstRow_spec _ _ _ Hs1 Hc1) as (Hs2 & Hc2 & Hr2).
  destruct (fillRows_spec a b (fillFirstRow (length b)
              (fillFirstColumn (length a) (newTable (length a) (length b)))))
    as [_ Hcells].
  { split; [done|]. intros i' j' Hi' Hj' Hdone.
    destruct (decide (j' = 0)) as [->|Hj0].
    - rewrite prefixDistance_0_r by done. by apply Hc2.
    - assert (i' = 0) as -> by lia.
      rewrite prefixDistance_0_l by done. by apply Hr2. }
  split; [done|]. split.
  - unfold checkedDistance. rewrite Hchecked. simpl.
    by rewrite (readCell_inside _ _ _ _ _ Hshape).
  - intros i j Hi Hj. rewrite (readCell_inside _ _ _ _ _ Hshape) by done.
    f_equal. unfold levenshteinTable.
    rewrite Hcells by lia. rewrite levenshteinDistance_lev. apply lev_rev.
Qed.

Lemma levenshteinTable_cells_witness :
  2 ≤ length (js "kitten") ∧ 3 ≤ length (js "sitting") ∧
  checkedDistance (js "kitten") (js "sitting") = Some 3 ∧
  readCell (levenshteinTable (js "kitten") (js "sitting")) 2 3
    = Some (levenshteinDistance (js "ki") (js "sit")).
Proof.
  assert (2 ≤ length (js "kitten")) as Hi by (simpl; lia).
  assert (3 ≤ length (js "sitting")) as Hj by (simpl; lia).
  split; [exact Hi|]. split; [exact Hj|].
  destruct (levenshteinTable_cells (js "kitten") (js "sitting"))
    as (_ & Hdistance & Hcells).
  split; [exact Hdistance|]. exact (Hcells 2 3 Hi Hj).
Defined.

(** ** The word rule of [fuzzyMatch] *)

Lemma similarWord_true (termWord word : jsstring) :
  similarWord termWord word = true ↔ 4 ≤ length word ∧ lev termWord word ≤ 1.
Proof.
  unfold similarWord.
  rewrite !andb_true_iff, Z.leb_le, !Nat.leb_le, levenshteinDistance_lev.
  pose proof (lev_length_bounds termWord word). lia.
Qed.

(** X6: the test on the two lengths in the innermost loop changes
    nothing: two words within distance 1 differ in length by at most 1
    anyway. *)
Theorem similarWord_length_test (termWord word : jsstring) :
  similarWord termWord word =
    (4 <=? length word) && (levenshteinDistance termWord word <=? 1).
Proof.
  apply eq_true_iff_eq.
  rewrite similarWord_true, andb_true_iff, !Nat.leb_le, levenshteinDistance_lev.
  done.
Qed.

Lemma fuzzyWords_lev (term text : jsstring) :
  fuzzyWords term text = true ↔
  ∃ termWord word,
    termWord ∈ splitWhitespace term ∧ word ∈ splitWhitespace text ∧
    4 ≤ length termWord ∧ 4 ≤ length word ∧ lev termWord word ≤ 1.
Proof.
  unfold fuzzyWords. cbv zeta. rewrite existsb_exists. split.
  - intros (termWord & Hin & [Hlen Hwords]%andb_true_iff).
    apply existsb_exists in Hwords as (word & Hin' & [Hlen' Hlev]%similarWord_true).
    exists termWord, word. rewrite !list_elem_of_In.
    by apply Nat.leb_le in Hlen.
  - intros (termWord & word & Hin & Hin' & Hlen & Hlen' & Hnear).
    exists termWord. rewrite <- list_elem_of_In. split; [done|].
    apply andb_true_iff. split; [by apply Nat.leb_le|].
    apply existsb_exists. exists word. rewrite <- list_elem_of_In. split; [done|].
    by apply similarWord_true.
Qed.

(** X7: the word rule finds a match exactly when a word of the term and
    a word of the text, both of 4 characters or more, are equal or one
    insertion, deletion or substitution of a character apart. *)
Theorem fuzzyWords_true (term text : jsstring) :
  fuzzyWords term text = true ↔
  ∃ termWord word,
    termWord ∈ splitWhitespace term ∧ word ∈ splitWhitespace text ∧
    4 ≤ length termWord ∧ 4 ≤ length word ∧
    (termWord = word ∨ edit termWord word).
Proof. rewrite fuzzyWords_lev. by setoid_rewrite lev_le_one. Qed.

(** ** The abbreviation rules *)

Lemma objectPrototype_not_own term :
  term ∈ objectPrototype → ownProperty term abbreviations = None.
Proof.
  unfold objectPrototype. intros Hin.
  repeat (apply elem_of_cons in Hin as [->|Hin]; [vm_compute; reflexivity|]).
  by apply elem_of_nil in Hin.
Qed.

Lemma getProperty_Inherited_iff term :
  getProperty term = Inherited ↔ term ∈ objectPrototype.
Proof.
  unfold getProperty. split.
  - destruct (ownProperty term abbreviations); [done|]. by case_decide.
  - intros Hin. rewrite objectPrototype_not_own by done. by rewrite decide_True.
Qed.

Lemma forwardAbbreviation_throws term text :
  forwardAbbreviation term text = TypeError ↔ term ∈ objectPrototype.
Proof.
  rewrite <- getProperty_Inherited_iff. unfold forwardAbbreviation.
  by destruct (getProperty term).
Qed.

Lemma forwardAbbreviation_true term text :
  forwardAbbreviation term text = Ok true ↔
  ∃ expansions expansion,
    ownProperty term abbreviations = Some expansions ∧
    expansion ∈ expansions ∧ includes text expansion = true.
Proof.
  unfold forwardAbbreviation, getProperty.
  destruct (ownProperty term abbreviations) as [expansions|].
  - split.
    + intros [= (expansion & Hin & Hinc)%existsb_exists].
      exists expansions, expansion. by rewrite list_elem_of_In.
    + intros (? & expansion & [= <-] & Hin & Hinc). f_equal.
      apply existsb_exists. exists expansion. by rewrite <- list_elem_of_In.
  - split; [by case_decide|]. by intros (? & ? & ? & _).
Qed.

Lemma reverseAbbreviation_true term text :
  reverseAbbreviation term text = true ↔
  ∃ abbr expansions,
    (abbr, expansions) ∈ abbreviations ∧ term ∈ expansions ∧
    includes text abbr = true.
Proof.
  unfold reverseAbbreviation. rewrite existsb_exists. split.
  - intros ([abbr expansions] & Hin & [Hterm Hinc]%andb_true_iff).
    exists abbr, expansions. rewrite list_elem_of_In.
    by apply bool_decide_eq_true in Hterm.
  - intros (abbr & expansions & Hin & Hterm & Hinc).
    exists (abbr, expansions). rewrite <- list_elem_of_In. split; [done|].
    apply andb_true_iff. split; [by apply bool_decide_eq_true|done].
Qed.

(** ** [fuzzyMatch] *)

Lemma forallb_trim (f : code_unit → bool) (s : jsstring) :
  forallb f s = true → forallb f (trim s) = true.
Proof.
  unfold trim. destruct (trimStart_suffix s) as [l1 Hl1].
  destruct (trimEnd_prefix (trimStart s)) as [l2 Hl2].
  rewrite Hl1 at 1. rewrite Hl2 at 1. rewrite !forallb_app, !andb_true_iff. tauto.
Qed.

Lemma length_trim (s : jsstring) : length (trim s) ≤ length s.
Proof.
  unfold trim. destruct (trimStart_suffix s) as [l1 Hl1].
  destruct (trimEnd_prefix (trimStart s)) as [l2 Hl2].
  rewrite Hl1 at 2. rewrite Hl2 at 2. rewrite !length_app. lia.
Qed.

Lemma forallb_asciiLower_no_capital (s : jsstring) :
  forallb (fun c => negb ((65 <=? c) && (c <=? 90))%N) (map asciiLower s) = true.
Proof.
  induction s as [|c s IH]; simpl; [done|]. rewrite IH, andb_true_r.
  unfold asciiLower.
  destruct (65 <=? c)%N eqn:H1, (c <=? 90)%N eqn:H2; simpl; rewrite ?H1, ?H2; try done.
  apply N.leb_le in H1, H2. apply negb_true_iff, andb_false_iff. right.
  apply N.leb_gt. lia.
Qed.

(** The inherited names in lower case. *)
Lemma objectPrototype_no_capital (term : jsstring) :
  term ∈ objectPrototype →
  forallb (fun c => negb ((65 <=? c) && (c <=? 90))%N) term = true →
  term = js "constructor" ∨ term = js "__proto__".
Proof.
  unfold objectPrototype. intros Hin Hlower.
  apply elem_of_cons in Hin as [->|Hin]; [by left|].
  apply elem_of_cons in Hin as [->|Hin]; [by right|].
  repeat (apply elem_of_cons in Hin as [->|Hin]; [by vm_compute in Hlower|]).
  by apply elem_of_nil in Hin.
Qed.

Section SearchUtilsFurther.
Variable toLowerCase : jsstring → jsstring.
Hypothesis toLowerCase_ascii :
  ∀ s, forallb isAscii s = true → toLowerCase s = map asciiLower s.

Lemma fuzzyMatch_TypeError_forward searchTerm targetText :
  fuzzyMatch toLowerCase searchTerm targetText = TypeError ↔
  includes (toLowerCase targetText) (trim (toLowerCase searchTerm)) = false ∧
  forwardAbbreviation (trim (toLowerCase searchTerm)) (toLowerCase targetText)
    = TypeError.
Proof.
  unfold fuzzyMatch. cbv zeta.
  destruct (includes _ _); [intuition discriminate|].
  destruct (forwardAbbreviation _ _) as [[]|]; simpl; [intuition discriminate| |done].
  destruct (reverseAbbreviation _ _); intuition discriminate.
Qed.

(** X8: [fuzzyMatch] throws exactly when the normalised term is a name
    that the table inherits from [Object.prototype] and the text does
    not include it; in every other case it returns a boolean. *)
Theorem fuzzyMatch_throws (searchTerm targetText : jsstring) :
  fuzzyMatch toLowerCase searchTerm targetText = TypeError ↔
  includes (toLowerCase targetText) (trim (toLowerCase searchTerm)) = false ∧
  trim (toLowerCase searchTerm) ∈ objectPrototype.
Proof. by rewrite fuzzyMatch_TypeError_forward, forwardAbbreviation_throws. Qed.

(** X9: for a search term of ASCII characters the terms that throw are
    two: "constructor" and "__proto__", the inherited names without a
    capital letter. *)
Theorem fuzzyMatch_throws_ascii (searchTerm targetText : jsstring) :
  forallb isAscii searchTerm = true →
  fuzzyMatch toLowerCase searchTerm targetText = TypeError ↔
  includes (toLowerCase targetText) (trim (toLowerCase searchTerm)) = false ∧
  (trim (toLowerCase searchTerm) = js "constructor" ∨
   trim (toLowerCase searchTerm) = js "__proto__").
Proof.
  intros Hascii.
  rewrite fuzzyMatch_TypeError_forward, forwardAbbreviation_throws.
  split; intros [Hinc Hterm]; (split; [done|]).
  - apply objectPrototype_no_capital; [done|].
    rewrite toLowerCase_ascii by done.
    apply forallb_trim, forallb_asciiLower_no_capital.
  - unfold objectPrototype. rewrite !elem_of_cons. tauto.
Qed.

(** X10: [fuzzyMatch] returns true exactly when the text includes the
    normalised term, or else the term is not an inherited name and one
    of three holds: the term is a key of the table and the text
    includes one of its expansions; the term is an expansion of a key
    that the text includes; the word rule finds two words of 4
    characters or more at most one edit apart. *)
Theorem fuzzyMatch_true (searchTerm targetText : jsstring) :
  let term := trim (toLowerCase searchTerm) in
  let text := toLowerCase targetText in
  (fuzzyMatch toLowerCase searchTerm targetText = Ok true ↔
   includes text term = true ∨
   (term ∉ objectPrototype) ∧
   ((∃ expansions expansion,
       ownProperty term abbreviations = Some expansions ∧
       expansion ∈ expansions ∧ includes text expansion = true) ∨
    (∃ abbr expansions,
       (abbr, expansions) ∈ abbreviations ∧ term ∈ expansions ∧
       includes text abbr = true) ∨
    (∃ termWord word,
       termWord ∈ splitWhitespace term ∧ word ∈ splitWhitespace text ∧
       4 ≤ length termWord ∧ 4 ≤ length word ∧
       (termWord = word ∨ edit termWord word)))).
Proof.
  intros term text.
  rewrite <- forwardAbbreviation_true, <- reverseAbbreviation_true.
  rewrite <- (forwardAbbreviation_throws term text).
  setoid_rewrite <- lev_le_one. rewrite <- fuzzyWords_lev.
  unfold fuzzyMatch. cbv zeta. fold term text.
  destruct (includes text term); [intuition discriminate|].
  destruct (forwardAbbreviation term text) as [[]|]; simpl;
    [intuition discriminate| |intuition discriminate].
  destruct (reverseAbbreviation term text); [intuition discriminate|].
  destruct (fuzzyWords term text); intuition discriminate.
Qed.

End SearchUtilsFurther.

(** ** The table, white space and letter case *)

Lemma abbreviations_entry abbr expansions expansion :
  (abbr, expansions) ∈ abbreviations → expansion ∈ expansions →
  forallb isAscii abbr = true ∧ trim (map asciiLower abbr) = abbr ∧
  forallb isAscii expansion = true ∧ trim (map asciiLower expansion) = expansion ∧
  ownProperty abbr abbreviations = Some expansions ∧
  getProperty expansion ≠ Inherited.
Proof.
  unfold abbreviations. intros Hentry Hexpansion.
  repeat (apply elem_of_cons in Hentry as [[= -> ->]|Hentry];
          [repeat (apply elem_of_cons in Hexpansion as [->|Hexpansion];
                   [by vm_compute|]);
           by apply elem_of_nil in Hexpansion|]).
  by apply elem_of_nil in Hentry.
Qed.

Lemma forallb_isWhiteSpace_asciiLower (s : jsstring) :
  forallb isWhiteSpace (map asciiLower s) = forallb isWhiteSpace s.
Proof.
  induction s as [|c s IH]; simpl; [done|].
  by rewrite isWhiteSpace_asciiLower, IH.
Qed.

Lemma trimEnd_app_whitespace (s after : jsstring) :
  forallb isWhiteSpace after = true → trimEnd (s ++ after) = trimEnd s.
Proof.
  intros Hafter. unfold trimEnd.
  by rewrite rev_app_distr, trimStart_app, forallb_rev, Hafter.
Qed.

Lemma trim_padding (before s after : jsstring) :
  forallb isWhiteSpace before = true → forallb isWhiteSpace after = true →
  trim (before ++ s ++ after) = trim s.
Proof.
  intros Hbefore Hafter. unfold trim.
  rewrite trimStart_app, Hbefore, trimStart_app.
  destruct (forallb isWhiteSpace s) eqn:Hs.
  - by rewrite (trimStart_whitespace after), (trimStart_whitespace s).
  - by apply trimEnd_app_whitespace.
Qed.

Section SearchUtilsAscii.
Variable toLowerCase : jsstring → jsstring.
Hypothesis toLowerCase_ascii :
  ∀ s, forallb isAscii s = true → toLowerCase s = map asciiLower s.

(** X11: with a key of the table as search term, [fuzzyMatch] is true on
    every text that includes one of the key's expansions; with an
    expansion as search term, on every text that includes its key. *)
Theorem fuzzyMatch_abbreviation (abbr expansion : jsstring) expansions targetText :
  (abbr, expansions) ∈ abbreviations → expansion ∈ expansions →
  (includes (toLowerCase targetText) expansion = true →
   fuzzyMatch toLowerCase abbr targetText = Ok true) ∧
  (includes (toLowerCase targetText) abbr = true →
   fuzzyMatch toLowerCase expansion targetText = Ok true).
Proof.
  intros Hentry Hexpansion.
  destruct (abbreviations_entry _ _ _ Hentry Hexpansion)
    as (Hascii & Htrim & Hascii' & Htrim' & Hown & Hget).
  split; intros Hinc; unfold fuzzyMatch; cbv zeta.
  - rewrite (toLowerCase_ascii abbr Hascii), Htrim.
    destruct (includes _ abbr); [done|].
    assert (forwardAbbreviation abbr (toLowerCase targetText) = Ok true) as ->; [|done].
    apply forwardAbbreviation_true. eauto.
  - rewrite (toLowerCase_ascii expansion Hascii'), Htrim'.
    destruct (includes _ expansion); [done|].
    assert (reverseAbbreviation expansion (toLowerCase targetText) = true) as Hreverse.
    { apply reverseAbbreviation_true. eauto. }
    unfold forwardAbbreviation. rewrite Hreverse.
    destruct (getProperty expansion); simpl; [|done|done].
    by destruct (existsb _ _).
Qed.

(** X12: white space before and after the search term is not seen by
    [fuzzyMatch]. *)
Theorem fuzzyMatch_padding (before searchTerm after targetText : jsstring) :
  forallb isAscii (before ++ searchTerm ++ after) = true →
  forallb isWhiteSpace before = true → forallb isWhiteSpace after = true →
  fuzzyMatch toLowerCase (before ++ searchTerm ++ after) targetText =
    fuzzyMatch toLowerCase searchTerm targetText.
Proof.
  intros Hascii Hbefore Hafter.
  assert (forallb isAscii searchTerm = true) as Hascii'.
  { rewrite !forallb_app, !andb_true_iff in Hascii. tauto. }
  unfold fuzzyMatch. cbv zeta.
  rewrite (toLowerCase_ascii _ Hascii), (toLowerCase_ascii _ Hascii'), !map_app.
  by rewrite trim_padding by (by rewrite forallb_isWhiteSpace_asciiLower).
Qed.

(** X13: letter case is not seen: inputs that differ only in the case of
    ASCII letters give the same result, of [fuzzyMatch] and of
    [calculateMatchScore]. *)
Theorem search_ignores_case (query query' title title' : jsstring)
    (description description' subject subject' : jsstring) :
  forallb isAscii (query ++ title ++ description ++ subject) = true →
  forallb isAscii (query' ++ title' ++ description' ++ subject') = true →
  map asciiLower query = map asciiLower query' →
  map asciiLower title = map asciiLower title' →
  map asciiLower description = map asciiLower description' →
  map asciiLower subject = map asciiLower subject' →
  fuzzyMatch toLowerCase query title = fuzzyMatch toLowerCase query' title' ∧
  calculateMatchScore toLowerCase query title description subject =
    calculateMatchScore toLowerCase query' title' description' subject'.
Proof.
  rewrite !forallb_app, !andb_true_iff.
  intros (Hq & Ht & Hd & Hs) (Hq' & Ht' & Hd' & Hs') Eq Et Ed Es.
  assert (toLowerCase query = toLowerCase query') as Eq'.
  { by rewrite !toLowerCase_ascii, Eq. }
  assert (toLowerCase title = toLowerCase title') as Et'.
  { by rewrite !toLowerCase_ascii, Et. }
  assert (toLowerCase description = toLowerCase description') as Ed'.
  { by rewrite !toLowerCase_ascii, Ed. }
  assert (toLowerCase subject = toLowerCase subject') as Es'.
  { by rewrite !toLowerCase_ascii, Es. }
  assert (toLowerCase (title ++ js " " ++ subject)
          = toLowerCase (title' ++ js " " ++ subject')) as Ets.
  { rewrite !toLowerCase_ascii, !map_app, ?Et, ?Es; [done|..];
      rewrite !forallb_app, !andb_true_iff; done. }
  unfold calculateMatchScore, fuzzyBonus, titleScore, titleWordScore, subjectScore,
    descriptionScore, fuzzyMatch. cbv zeta.
  by rewrite Eq', Et', Ed', Es', Ets.
Qed.

End SearchUtilsAscii.

(** ** [calculateMatchScore] *)

Lemma objectPrototype_length (term : jsstring) :
  term ∈ objectPrototype → 4 ≤ length term.
Proof.
  unfold objectPrototype. intros Hin.
  repeat (apply elem_of_cons in Hin as [->|Hin]; [simpl; lia|]).
  by apply elem_of_nil in Hin.
Qed.

Lemma includes_refl (s : jsstring) : includes s s = true.
Proof. apply includes_spec. exists [], []. by rewrite app_nil_r. Qed.

Lemma includes_trans (s t u : jsstring) :
  includes s t = true → includes t u = true → includes s u = true.
Proof.
  rewrite !includes_spec. intros (l1 & l2 & ->) (k1 & k2 & ->).
  exists (l1 ++ k1), (k2 ++ l2). by rewrite <- !app_assoc.
Qed.

Lemma filter_all {A : Type} (f : A → bool) (l : list A) :
  (∀ x, x ∈ l → f x = true) → List.filter f l = l.
Proof.
  induction l as [|x l IH]; intros Hall; simpl; [done|].
  rewrite Hall by apply list_elem_of_here. f_equal. apply IH.
  intros y Hy. by apply Hall, list_elem_of_further.
Qed.

Lemma ratio_full (n : nat) :
  0 < n → (70 * (inject_Z (Z.of_nat n) / inject_Z (Z.of_nat n)) == 70)%Q.
Proof.
  intros Hn. destruct n as [|n]; [lia|].
  unfold Qeq, Qdiv, Qmult, Qinv, inject_Z. simpl. lia.
Qed.

Section ScoreFacts.
Variable toLowerCase : jsstring → jsstring.
Hypothesis toLowerCase_ascii :
  ∀ s, forallb isAscii s = true → toLowerCase s = map asciiLower s.

(** When every word of the title includes, or is included in, a word of
    the query, the overlap rule adds its whole 70 points. *)
Lemma titleWordScore_full queryLower title :
  (∀ w, w ∈ splitWhitespace (toLowerCase title) →
        ∃ qw, qw ∈ splitWhitespace queryLower ∧ includes w qw || includes qw w = true) →
  (titleWordScore toLowerCase queryLower title == 70)%Q.
Proof.
  intros Hall. unfold titleWordScore. cbv zeta.
  rewrite filter_all.
  - destruct (splitWhitespace (toLowerCase title)) as [|w ws] eqn:Hsplit.
    { by apply splitFrom_nonempty in Hsplit. }
    replace (0 <? length (w :: ws)) with true by (symmetry; apply Nat.ltb_lt; simpl; lia).
    apply ratio_full. simpl. lia.
  - intros w (qw & Hqw & Hinc)%Hall. apply existsb_exists.
    exists qw. by rewrite <- list_elem_of_In.
Qed.

(** X14: [calculateMatchScore] throws exactly when the normalised query
    is a name that the table inherits from [Object.prototype] and the
    title and subject, joined by a space, do not include it. A query of
    fewer than 4 characters never throws. *)
Theorem calculateMatchScore_throws (query title description subject : jsstring) :
  calculateMatchScore toLowerCase query title description subject = TypeError ↔
  includes (toLowerCase (title ++ js " " ++ subject)) (trim (toLowerCase query)) = false ∧
  trim (toLowerCase query) ∈ objectPrototype.
Proof.
  rewrite <- (forwardAbbreviation_throws _ (toLowerCase (title ++ js " " ++ subject))).
  rewrite <- fuzzyMatch_TypeError_forward.
  unfold calculateMatchScore, fuzzyBonus. cbv zeta.
  destruct (4 <=? length (toLowerCase query)) eqn:Hlen.
  - destruct (fuzzyMatch _ _ _) as [[]|]; simpl; intuition discriminate.
  - simpl. split; [done|].
    intros [_ Hin%forwardAbbreviation_throws%objectPrototype_length]%fuzzyMatch_TypeError_forward.
    apply Nat.leb_gt in Hlen. pose proof (length_trim (toLowerCase query)). lia.
Qed.

(** X15: a query of fewer than 4 characters in lower case earns no
    fuzzy bonus: the call returns, and the score is at most 290. *)
Theorem calculateMatchScore_short_query (query title description subject : jsstring) :
  length (toLowerCase query) < 4 →
  ∃ score,
    calculateMatchScore toLowerCase query title description subject = Ok score ∧
    (0 <= score <= 290)%Q.
Proof.
  intros Hlen. unfold calculateMatchScore, fuzzyBonus. cbv zeta.
  replace (4 <=? length (toLowerCase query)) with false
    by (symmetry; apply Nat.leb_gt; lia).
  eexists. split; [reflexivity|].
  pose proof (titleScore_bounds toLowerCase (toLowerCase query) title).
  pose proof (titleWordScore_bounds toLowerCase (toLowerCase query) title).
  pose proof (subjectScore_bounds toLowerCase (toLowerCase query) subject).
  pose proof (descriptionScore_bounds toLowerCase (toLowerCase query) description).
  split; lra.
Qed.

(** X16: the empty query matches every record in every field: the score
    is 275, and 10 more for an empty title and 5 more for an empty
    subject. *)
Theorem calculateMatchScore_empty_query (title description subject : jsstring) :
  ∃ score,
    calculateMatchScore toLowerCase [] title description subject = Ok score ∧
    (score == 275 + (if decide (toLowerCase title = []) then 10 else 0)
                  + (if decide (toLowerCase subject = []) then 5 else 0))%Q.
Proof.
  assert (toLowerCase [] = []) as Hempty by (by apply toLowerCase_ascii).
  unfold calculateMatchScore, fuzzyBonus. cbv zeta. rewrite Hempty. simpl.
  eexists. split; [reflexivity|].
  rewrite titleWordScore_full.
  - unfold titleScore, subjectScore, descriptionScore. rewrite !includes_nil_r.
    repeat case_decide; try done; reflexivity.
  - intros w _. exists []. split; [apply list_elem_of_here|].
    by rewrite includes_nil_r.
Qed.

(** X17: a title equal to the query, letter case apart, earns the 100
    points of the exact match and the whole 70 of the overlap rule: the
    score is 170 or more. *)
Theorem calculateMatchScore_exact_title (query title description subject : jsstring) score :
  toLowerCase title = toLowerCase query →
  calculateMatchScore toLowerCase query title description subject = Ok score →
  (170 <= score)%Q.
Proof.
  intros Heq. unfold calculateMatchScore. cbv zeta.
  destruct (fuzzyBonus _ _ _ _ _) as [bonus|] eqn:Hbonus; simpl; [|done].
  intros [= <-]. apply fuzzyBonus_bounds in Hbonus.
  assert (titleScore toLowerCase (toLowerCase query) title = 100%Q) as ->.
  { unfold titleScore. by rewrite decide_True. }
  rewrite titleWordScore_full.
  - pose proof (subjectScore_bounds toLowerCase (toLowerCase query) subject).
    pose proof (descriptionScore_bounds toLowerCase (toLowerCase query) description).
    lra.
  - intros w Hw. exists w. rewrite <- Heq. split; [done|].
    by rewrite includes_refl.
Qed.

(** X18: on ASCII text, a query of 4 characters or more that the title
    or the subject includes always earns the fuzzy bonus as well: the
    call returns, with a score of 95 or more. *)
Theorem calculateMatchScore_included_query (query title description subject : jsstring) :
  forallb isAscii (title ++ js " " ++ subject) = true →
  4 ≤ length (toLowerCase query) →
  includes (toLowerCase title) (toLowerCase query) = true ∨
  includes (toLowerCase subject) (toLowerCase query) = true →
  fuzzyBonus toLowerCase query (toLowerCase query) title subject = Ok 20%Q ∧
  ∃ score,
    calculateMatchScore toLowerCase query title description subject = Ok score ∧
    (95 <= score)%Q.
Proof.
  intros Hascii Hlen Hinc.
  assert (forallb isAscii title = true ∧ forallb isAscii subject = true) as [Ht Hs].
  { rewrite !forallb_app, !andb_true_iff in Hascii. tauto. }
  assert (includes (toLowerCase (title ++ js " " ++ subject)) (trim (toLowerCase query))
          = true) as Hterm.
  { apply (includes_trans _ (toLowerCase query)); [|apply includes_trim].
    rewrite (toLowerCase_ascii _ Hascii), !map_app.
    rewrite <- (toLowerCase_ascii _ Ht), <- (toLowerCase_ascii _ Hs).
    destruct Hinc as [Hinc|Hinc].
    - eapply includes_trans; [|exact Hinc].
      apply includes_spec. by exists [], (map asciiLower (js " ") ++ toLowerCase subject).
    - eapply includes_trans; [|exact Hinc].
      apply includes_spec.
      exists (toLowerCase title ++ map asciiLower (js " ")), [].
      by rewrite app_nil_r, <- app_assoc. }
  assert (fuzzyBonus toLowerCase query (toLowerCase query) title subject = Ok 20%Q)
    as Hbonus.
  { unfold fuzzyBonus, fuzzyMatch. cbv zeta.
    replace (4 <=? length (toLowerCase query)) with true
      by (symmetry; by apply Nat.leb_le).
    by rewrite Hterm. }
  split; [done|]. unfold calculateMatchScore. cbv zeta. rewrite Hbonus. simpl.
  eexists. split; [reflexivity|].
  pose proof (titleScore_bounds toLowerCase (toLowerCase query) title).
  pose proof (titleWordScore_bounds toLowerCase (toLowerCase query) title).
  pose proof (subjectScore_bounds toLowerCase (toLowerCase query) subject).
  pose proof (descriptionScore_bounds toLowerCase (toLowerCase query) description).
  assert (90 <= titleScore toLowerCase (toLowerCase query) title
          ∨ 75 <= subjectScore toLowerCase (toLowerCase query) subject)%Q as Hfield.
  { unfold titleScore, subjectScore. destruct Hinc as [-> | ->].
    - left. case_decide; by compute.
    - right. case_decide; by compute. }
  destruct Hfield; lra.
Qed.

End ScoreFacts.

(** ** The further statements at concrete inputs *)

Lemma fuzzyMatch_throws_ascii_witness :
  (∀ s, forallb isAscii s = true → asciiToLowerCase s = map asciiLower s) ∧
  forallb isAscii (js " Constructor") = true ∧
  fuzzyMatch asciiToLowerCase (js " Constructor") (js "Building sites") = TypeError.
Proof.
  split; [exact asciiToLowerCase_ascii|].
  assert (forallb isAscii (js " Constructor") = true) as Hascii by reflexivity.
  split; [exact Hascii|].
  apply (fuzzyMatch_throws_ascii asciiToLowerCase asciiToLowerCase_ascii
           (js " Constructor") (js "Building sites") Hascii).
  split; [reflexivity|]. left. reflexivity.
Defined.

Lemma fuzzyMatch_abbreviation_witness :
  (∀ s, forallb isAscii s = true → asciiToLowerCase s = map asciiLower s) ∧
  (js "bio", [js "biology"]) ∈ abbreviations ∧
  js "biology" ∈ [js "biology"] ∧
  includes (asciiToLowerCase (js "Study of Biology")) (js "biology") = true ∧
  fuzzyMatch asciiToLowerCase (js "bio") (js "Study of Biology") = Ok true ∧
  includes (asciiToLowerCase (js "Bio lab")) (js "bio") = true ∧
  fuzzyMatch asciiToLowerCase (js "biology") (js "Bio lab") = Ok true.
Proof.
  split; [exact asciiToLowerCase_ascii|].
  assert ((js "bio", [js "biology"]) ∈ abbreviations) as Hentry.
  { do 4 apply list_elem_of_further. apply list_elem_of_here. }
  assert (js "biology" ∈ [js "biology"]) as Hexpansion by apply list_elem_of_here.
  assert (includes (asciiToLowerCase (js "Study of Biology")) (js "biology") = true)
    as Hforward by reflexivity.
  assert (includes (asciiToLowerCase (js "Bio lab")) (js "bio") = true)
    as Hreverse by reflexivity.
  split; [exact Hentry|]. split; [exact Hexpansion|]. split; [exact Hforward|].
  split; [|split; [exact Hreverse|]].
  - exact (proj1 (fuzzyMatch_abbreviation asciiToLowerCase asciiToLowerCase_ascii
                    (js "bio") (js "biology") [js "biology"] (js "Study of Biology")
                    Hentry Hexpansion) Hforward).
  - exact (proj2 (fuzzyMatch_abbreviation asciiToLowerCase asciiToLowerCase_ascii
                    (js "bio") (js "biology") [js "biology"] (js "Bio lab")
                    Hentry Hexpansion) Hreverse).
Defined.

Lemma fuzzyMatch_padding_witness :
  (∀ s, forallb isAscii s = true → asciiToLowerCase s = map asciiLower s) ∧
  forallb isAscii (js "  " ++ js "maths" ++ js " ") = true ∧
  forallb isWhiteSpace (js "  ") = true ∧ forallb isWhiteSpace (js " ") = true ∧
  fuzzyMatch asciiToLowerCase (js "  maths ") (js "I love math") =
    fuzzyMatch asciiToLowerCase (js "maths") (js "I love math").
Proof.
  split; [exact asciiToLowerCase_ascii|].
  assert (forallb isAscii (js "  " ++ js "maths" ++ js " ") = true) as Hascii
    by reflexivity.
  assert (forallb isWhiteSpace (js "  ") = true) as Hbefore by reflexivity.
  assert (forallb isWhiteSpace (js " ") = true) as Hafter by reflexivity.
  split; [exact Hascii|]. split; [exact Hbefore|]. split; [exact Hafter|].
  exact (fuzzyMatch_padding asciiToLowerCase asciiToLowerCase_ascii
           (js "  ") (js "maths") (js " ") (js "I love math") Hascii Hbefore Hafter).
Defined.

Lemma search_ignores_case_witness :
  (∀ s, forallb isAscii s = true → asciiToLowerCase s = map asciiLower s) ∧
  calculateMatchScore asciiToLowerCase (js "MATHS") (js "Mathematics 101")
    (js "Intro course") (js "Maths") =
  calculateMatchScore asciiToLowerCase (js "maths") (js "MATHEMATICS 101")
    (js "intro COURSE") (js "maths").
Proof.
  split; [exact asciiToLowerCase_ascii|].
  apply (search_ignores_case asciiToLowerCase asciiToLowerCase_ascii
           (js "MATHS") (js "maths") (js "Mathematics 101") (js "MATHEMATICS 101")
           (js "Intro course") (js "intro COURSE") (js "Maths") (js "maths"));
    reflexivity.
Defined.

Lemma calculateMatchScore_short_query_witness :
  length (asciiToLowerCase (js "Bio")) < 4 ∧
  ∃ score,
    calculateMatchScore asciiToLowerCase (js "Bio") (js "Biology basics")
      (js "Cells") (js "Bio") = Ok score ∧
    (0 <= score <= 290)%Q.
Proof.
  assert (length (asciiToLowerCase (js "Bio")) < 4) as Hlen by (simpl; lia).
  split; [exact Hlen|].
  exact (calculateMatchScore_short_query asciiToLowerCase (js "Bio")
           (js "Biology basics") (js "Cells") (js "Bio") Hlen).
Defined.

Lemma calculateMatchScore_empty_query_witness :
  (∀ s, forallb isAscii s = true → asciiToLowerCase s = map asciiLower s) ∧
  ∃ score,
    calculateMatchScore asciiToLowerCase [] (js "Algebra") (js "Intro") [] = Ok score ∧
    (score == 280)%Q.
Proof.
  split; [exact asciiToLowerCase_ascii|].
  destruct (calculateMatchScore_empty_query asciiToLowerCase asciiToLowerCase_ascii
              (js "Algebra") (js "Intro") []) as (score & Hscore & Hvalue).
  exists score. split; [exact Hscore|]. exact Hvalue.
Defined.

Lemma calculateMatchScore_exact_title_witness :
  asciiToLowerCase (js "Algebra") = asciiToLowerCase (js "ALGEBRA") ∧
  calculateMatchScore asciiToLowerCase (js "ALGEBRA") (js "Algebra") (js "Intro")
    (js "Maths") = Ok 190%Q ∧
  (170 <= 190)%Q.
Proof.
  assert (asciiToLowerCase (js "Algebra") = asciiToLowerCase (js "ALGEBRA")) as Heq
    by reflexivity.
  assert (calculateMatchScore asciiToLowerCase (js "ALGEBRA") (js "Algebra") (js "Intro")
            (js "Maths") = Ok 190%Q) as Hscore by reflexivity.
  split; [exact Heq|]. split; [exact Hscore|].
  exact (calculateMatchScore_exact_title asciiToLowerCase (js "ALGEBRA") (js "Algebra")
           (js "Intro") (js "Maths") 190%Q Heq Hscore).
Defined.

Lemma calculateMatchScore_included_query_witness :
  (∀ s, forallb isAscii s = true → asciiToLowerCase s = map asciiLower s) ∧
  forallb isAscii (js "Linear Algebra" ++ js " " ++ js "Maths") = true ∧
  4 ≤ length (asciiToLowerCase (js "algebra")) ∧
  includes (asciiToLowerCase (js "Linear Algebra")) (asciiToLowerCase (js "algebra"))
    = true ∧
  fuzzyBonus asciiToLowerCase (js "algebra") (asciiToLowerCase (js "algebra"))
    (js "Linear Algebra") (js "Maths") = Ok 20%Q.
Proof.
  split; [exact asciiToLowerCase_ascii|].
  assert (forallb isAscii (js "Linear Algebra" ++ js " " ++ js "Maths") = true)
    as Hascii by reflexivity.
  assert (4 ≤ length (asciiToLowerCase (js "algebra"))) as Hlen by (simpl; lia).
  assert (includes (asciiToLowerCase (js "Linear Algebra"))
            (asciiToLowerCase (js "algebra")) = true) as Hinc by reflexivity.
  split; [exact Hascii|]. split; [exact Hlen|]. split; [exact Hinc|].
  exact (proj1 (calculateMatchScore_included_query asciiToLowerCase
                  asciiToLowerCase_ascii (js "algebra") (js "Linear Algebra")
                  (js "Intro") (js "Maths") Hascii Hlen (or_introl Hinc))).
Defined.
